(** * storjds: the Storj-backed datastore adapter (storj.go)

    A shallow embedding of [storj.go]: the key codec ([storjKey] and the
    key rebuilt by the query iterator), the error translation
    ([isNotFound]), the single-object operations of [StorjDS], the query
    iterator and the batch accumulator.

    The uplink client ([uplink.Project] and the handles it returns) is an
    external collaborator: it is an interface record here, over an
    arbitrary remote state, and every theorem holds for every
    implementation of it.  [Module Fake] gives an in-memory implementation
    on which the statements are exercised.

    [NewStorjDatastore] and [Close] open and release the client and the
    log file; they are modelled apart, over the host they call
    ([Module host], [Section Lifecycle]). *)

From stdpp Require Import gmap strings list fin_maps.
From Stdlib Require Import ZArith.

(** ** Go values *)

(** A Go slice: [None] is the nil slice, [Some l] a non-nil slice holding
    [l] (possibly empty). *)
Definition slice (A : Type) : Type := option (list A).

Definition len {A : Type} (s : slice A) : nat :=
  match s with
  | None => 0
  | Some l => List.length l
  end.

(** The bytes a slice holds, as [Write] and [append] see them. *)
Definition elems {A : Type} (s : slice A) : list A :=
  match s with
  | None => []
  | Some l => l
  end.

(** Go's [int] on the 64-bit targets the plugin is built for, and the
    conversion [int(x)] of an [int64]: two's complement wrap-around. *)
Definition int_bits : Z := 64.

Definition wrap (bits x : Z) : Z :=
  ((x + 2 ^ (bits - 1)) mod 2 ^ bits - 2 ^ (bits - 1))%Z.

Definition int_of_int64 (x : Z) : Z := wrap int_bits x.

Definition is_int64 (x : Z) : Prop := (- 2 ^ 63 <= x < 2 ^ 63)%Z.

(** ** Errors *)

(** Go [error] values: the sentinels this file compares against, plain
    message errors ([errors.New], [fmt.Errorf] without [%w]) and errors
    that wrap another one (their [Unwrap] returns [cause]).  A nil
    [error] is [None : option error]. *)
Inductive error : Type :=
  | ErrObjectNotFound                        (* uplink.ErrObjectNotFound *)
  | ErrNotFound                              (* ds.ErrNotFound *)
  | EOF                                      (* io.EOF *)
  | ErrorString (msg : string)
  | Wrapped (msg : string) (cause : error).

#[global] Instance error_eq_dec : EqDecision error.
Proof. solve_decision. Defined.

(** [errors.Is(err, target)] for a non-nil [err]: walks the [Unwrap]
    chain comparing with [==]. *)
Fixpoint errors_Is (err target : error) : bool :=
  if decide (err = target) then true
  else match err with
       | Wrapped _ cause => errors_Is cause target
       | _ => false
       end.

(** storj.go:219 *)
Definition isNotFound (err : option error) : bool :=
  match err with
  | None => false
  | Some e => errors_Is e ErrObjectNotFound
  end.

(** ** Keys *)

(** [ds.Key] is a struct around one string; [key.String()] reads it. *)
Record Key : Type := RawKey { Key_String : string }.

#[global] Instance Key_eq_dec : EqDecision Key.
Proof. solve_decision. Defined.

#[global] Instance Key_countable : Countable Key.
Proof. apply (inj_countable' Key_String RawKey). by intros []. Defined.

(** [strings.HasPrefix(s, prefix)] and [strings.TrimPrefix(s, prefix)]. *)
Definition HasPrefix (s prefix : string) : bool :=
  Nat.leb (String.length prefix) (String.length s)
  && bool_decide (String.substring 0 (String.length prefix) s = prefix).

Definition TrimPrefix (s prefix : string) : string :=
  if HasPrefix s prefix
  then String.substring (String.length prefix)
                 (String.length s - String.length prefix) s
  else s.

(** storj.go:215 *)
Definition storjKey (ipfsKey : Key) : string :=
  TrimPrefix (Key_String ipfsKey) "/".

(** The key of a query entry, storj.go:179: ["/" + list.Item().Key]. *)
Definition entryKey (objectKey : string) : string :=
  "/" +:+ objectKey.

(** ** The uplink client (external collaborator) *)

Module uplink.

(** [uplink.SystemMetadata]; the timestamps [Created] and [Expires] are
    never read by storj.go and are left out. *)
Record SystemMetadata : Type := { ContentLength : Z }.

(** [uplink.Object], without the custom metadata storj.go never reads. *)
Record Object : Type := {
  Key : string;
  IsPrefix : bool;
  System : SystemMetadata
}.

(** [uplink.ListObjectsOptions]. *)
Record ListObjectsOptions : Type := {
  Prefix : string;
  Cursor : string;
  Recursive : bool;
  WithSystem : bool;          (* the field is named System in Go *)
  WithCustom : bool           (* Custom *)
}.

(** A call returning a pointer and an [error]: a valid pointer or a
    non-nil error. *)
Inductive res (A : Type) : Type :=
  | Ok (a : A)
  | Err (err : error).
Arguments Ok {A} a.
Arguments Err {A} err.

(** The stream behind a [*uplink.Download], as an [io.Reader]: what the
    successive [Read] calls deliver.  A stream with no step left reports
    [io.EOF]. *)
Record ReadStep : Type := {
  read_bytes : list Byte.byte;      (* the n bytes this Read stored *)
  read_err : option error           (* the error it returned with them *)
}.

Definition Download : Type := list ReadStep.

(** The client, over a remote state [R] it reads and changes.  [Upload]
    and [ObjectIterator] are the handles [UploadObject] and [ListObjects]
    return, with their methods.  An upload writes to the remote side; a
    listing cursor carries its own position, and [Next] returns the cursor
    it advanced to. *)
Record Project (R Upload ObjectIterator : Type) : Type := {
  UploadObject : string -> string -> R -> res Upload * R;
  Upload_Write : Upload -> slice Byte.byte -> R -> (Z * option error) * R;
  Upload_Commit : Upload -> R -> option error * R;
  DownloadObject : string -> string -> R -> res Download * R;
  StatObject : string -> string -> R -> res Object * R;
  DeleteObject : string -> string -> R -> res Object * R;
  ListObjects : string -> ListObjectsOptions -> R -> ObjectIterator * R;
  ObjectIterator_Next : ObjectIterator -> bool * ObjectIterator;
  ObjectIterator_Err : ObjectIterator -> option error;
  ObjectIterator_Item : ObjectIterator -> Object
}.
Arguments UploadObject {R Upload ObjectIterator}.
Arguments Upload_Write {R Upload ObjectIterator}.
Arguments Upload_Commit {R Upload ObjectIterator}.
Arguments DownloadObject {R Upload ObjectIterator}.
Arguments StatObject {R Upload ObjectIterator}.
Arguments DeleteObject {R Upload ObjectIterator}.
Arguments ListObjects {R Upload ObjectIterator}.
Arguments ObjectIterator_Next {R Upload ObjectIterator}.
Arguments ObjectIterator_Err {R Upload ObjectIterator}.
Arguments ObjectIterator_Item {R Upload ObjectIterator}.

(** The requests storj.go sends through the client. *)
Inductive Call : Type :=
  | CallUploadObject (bucket key : string)
  | CallWrite (p : slice Byte.byte)
  | CallCommit
  | CallDownloadObject (bucket key : string)
  | CallStatObject (bucket key : string)
  | CallDeleteObject (bucket key : string)
  | CallListObjects (bucket : string) (options : ListObjectsOptions).

End uplink.

(** [io.ReadAll] (which [ioutil.ReadAll] calls): reads until an error or
    EOF and returns the data it read; [io.EOF] itself, compared with [==],
    is reported as a nil error. *)
Fixpoint ReadAll_loop (r : uplink.Download) (b : list Byte.byte)
  : list Byte.byte * option error :=
  match r with
  | [] => (b, None)
  | step :: r' =>
      let b := b ++ uplink.read_bytes step in
      match uplink.read_err step with
      | Some err => (b, if decide (err = EOF) then None else Some err)
      | None => ReadAll_loop r' b
      end
  end.

Definition ReadAll (r : uplink.Download) : slice Byte.byte * option error :=
  let '(b, err) := ReadAll_loop r [] in (Some b, err).

(** ** The query package of go-datastore (external collaborator) *)

Module dsq.

(** [dsq.Filter] and [dsq.Order] are interfaces; storj.go only looks at
    whether the slices holding them are nil.  The built-in ones: *)
Inductive Op : Type := Equal | NotEqual | GreaterThan | GreaterThanOrEqual
                     | LessThan | LessThanOrEqual.

Inductive Filter : Type :=
  | FilterValueCompare (op : Op) (value : slice Byte.byte)
  | FilterKeyCompare (op : Op) (key : string)
  | FilterKeyPrefix (prefix : string).

Inductive Order : Type :=
  | OrderByValue
  | OrderByValueDescending
  | OrderByKey
  | OrderByKeyDescending.

Record Query : Type := {
  Prefix : string;
  Filters : slice Filter;
  Orders : slice Order;
  Limit : Z;
  Offset : Z;
  KeysOnly : bool;
  ReturnExpirations : bool;
  ReturnsSizes : bool
}.

(** [dsq.Entry], without the [Expiration] time storj.go never sets. *)
Record Entry : Type := {
  Key : string;
  Value : slice Byte.byte;
  Size : Z
}.

Record Result : Type := {
  Entry_of : Entry;            (* the embedded Entry *)
  Error : option error
}.

(** The zero values [dsq.Entry{}] and [dsq.Result{}]. *)
Definition Entry_zero : Entry := {| Key := ""; Value := None; Size := 0 |}.
Definition Result_zero : Result := {| Entry_of := Entry_zero; Error := None |}.

End dsq.

(** ** State *)

(** storj.go:228 *)
Record batchOp : Type := {
  value : slice Byte.byte;
  delete : bool
}.

(** What [storj.logger] is asked to print, one constructor per format
    string of storj.go, holding the arguments formatted into it. *)
Inductive LogLine : Type :=
  | LogPut (key : string) (bytes : nat)
  | LogSync (prefix : string)
  | LogGet (key : string)
  | LogHas (key : string)
  | LogDelete (key : string)
  | LogQuery (q : dsq.Query)
  | LogBatch
  | LogBatchPut (key : string) (bytes : nat)
  | LogBatchDelete (key : string)
  | LogBatchCommit.

(** A Go map value is a reference: [loc] names a map in the heap. *)
Definition loc : Type := nat.

Section Storj.

Context {R Upload ObjectIterator : Type}.

(** Everything a call of this package can read or change: the remote
    side, the requests sent to it so far, the lines handed to the
    logger, and the maps allocated by [Batch]. *)
Record World : Type := mkWorld {
  remote : R;
  calls : list uplink.Call;
  logged : list LogLine;
  heap : gmap loc (gmap Key batchOp)
}.

(** Calls of this package: state passing over [World]. *)
Definition M (A : Type) : Type := World -> A * World.

Definition ret {A : Type} (a : A) : M A := fun w => (a, w).

Definition bind {A B : Type} (m : M A) (f : A -> M B) : M B :=
  fun w => let (a, w') := m w in f a w'.

(** [storj.logger.Printf] / [Println] *)
Definition logger_Print (line : LogLine) : M unit :=
  fun w => (tt, mkWorld (remote w) (calls w) (logged w ++ [line]) (heap w)).

(** A request to the remote side, recorded in [calls]. *)
Definition request {A : Type} (c : uplink.Call) (f : R -> A * R) : M A :=
  fun w => let (a, r) := f (remote w) in
           (a, mkWorld r (calls w ++ [c]) (logged w) (heap w)).

End Storj.

Arguments World : clear implicits.
Arguments M : clear implicits.

Notation "'do' x <- m ; k" := (bind m (fun x => k))
  (at level 10, x name, m at level 100, k at level 200, only parsing).
Notation "'do' ' ( x , y ) <- m ; k" :=
  (bind m (fun xy => let (x, y) := xy in k))
  (at level 10, x name, y name, m at level 100, k at level 200, only parsing).
Notation "m ;; k" := (bind m (fun _ => k))
  (at level 100, k at level 200, right associativity, only parsing).

(** ** The datastore *)

(** storj.go:30 *)
Record Config : Type := {
  AccessGrant : string;
  Bucket : string;
  LogFile : string
}.

(** storj.go:23.  The logger and its file are the [logged] lines of the
    world. *)
Record StorjDS (R Upload ObjectIterator : Type) : Type := {
  conf : Config;
  Project : uplink.Project R Upload ObjectIterator
}.
Arguments conf {R Upload ObjectIterator}.
Arguments Project {R Upload ObjectIterator}.

(** storj.go:223.  [ops] is a reference to the map in the heap. *)
Record storjBatch (R Upload ObjectIterator : Type) : Type := {
  storj : StorjDS R Upload ObjectIterator;
  ops : loc
}.
Arguments storj {R Upload ObjectIterator}.
Arguments ops {R Upload ObjectIterator}.

Section Datastore.

Context {R Upload ObjectIterator : Type}.

(** [ds.NewKey]: go-datastore's constructor, which cleans the path it is
    given.  It is not part of this package; the query iterator is stated
    for any such function. *)
Variable NewKey : string -> Key.

(** storj.go:69 *)
Definition Put (storj : StorjDS R Upload ObjectIterator) (key : Key)
    (value : slice Byte.byte)
  : M R (option error) :=
  logger_Print (LogPut (Key_String key) (len value)) ;;
  do r <- request (uplink.CallUploadObject (Bucket (conf storj)) (storjKey key))
                  (uplink.UploadObject (Project storj)
                     (Bucket (conf storj)) (storjKey key)) ;
  match r with
  | uplink.Err err => ret (Some err)
  | uplink.Ok upload =>
      do '(_, err) <- request (uplink.CallWrite value)
                        (uplink.Upload_Write (Project storj) upload value) ;
      match err with
      | Some err => ret (Some err)
      | None =>
          request uplink.CallCommit
                  (uplink.Upload_Commit (Project storj) upload)
      end
  end.

(** storj.go:85 *)
Definition Sync (storj : StorjDS R Upload ObjectIterator) (prefix : Key)
  : M R (option error) :=
  logger_Print (LogSync (Key_String prefix)) ;;
  ret None.

(** storj.go:90 *)
Definition Get (storj : StorjDS R Upload ObjectIterator) (key : Key)
  : M R (slice Byte.byte * option error) :=
  logger_Print (LogGet (Key_String key)) ;;
  do r <- request (uplink.CallDownloadObject (Bucket (conf storj))
                     (storjKey key))
                  (uplink.DownloadObject (Project storj)
                     (Bucket (conf storj)) (storjKey key)) ;
  match r with
  | uplink.Err err =>
      if isNotFound (Some err) then ret (None, Some ErrNotFound)
      else ret (None, Some err)
  | uplink.Ok download => ret (ReadAll download)
  end.

(** storj.go:104 *)
Definition Has (storj : StorjDS R Upload ObjectIterator) (key : Key)
  : M R (bool * option error) :=
  logger_Print (LogHas (Key_String key)) ;;
  do r <- request (uplink.CallStatObject (Bucket (conf storj)) (storjKey key))
                  (uplink.StatObject (Project storj)
                     (Bucket (conf storj)) (storjKey key)) ;
  match r with
  | uplink.Err err =>
      if isNotFound (Some err) then ret (false, None)
      else ret (false, Some err)
  | uplink.Ok _ => ret (true, None)
  end.

(** storj.go:118 (the log line there is commented out) *)
Definition GetSize (storj : StorjDS R Upload ObjectIterator) (key : Key)
  : M R (Z * option error) :=
  do r <- request (uplink.CallStatObject (Bucket (conf storj)) (storjKey key))
                  (uplink.StatObject (Project storj)
                     (Bucket (conf storj)) (storjKey key)) ;
  match r with
  | uplink.Err err =>
      if isNotFound (Some err) then ret ((-1)%Z, Some ErrNotFound)
      else ret ((-1)%Z, Some err)
  | uplink.Ok obj =>
      ret (int_of_int64 (uplink.ContentLength (uplink.System obj)), None)
  end.

(** The [err] of [_, err := DeleteObject(...)]. *)
Definition err_of {A : Type} (r : uplink.res A) : option error :=
  match r with
  | uplink.Ok _ => None
  | uplink.Err err => Some err
  end.

(** storj.go:133 *)
Definition Delete (storj : StorjDS R Upload ObjectIterator) (key : Key)
  : M R (option error) :=
  logger_Print (LogDelete (Key_String key)) ;;
  do r <- request (uplink.CallDeleteObject (Bucket (conf storj)) (storjKey key))
                  (uplink.DeleteObject (Project storj)
                     (Bucket (conf storj)) (storjKey key)) ;
  let err := err_of r in
  let err := if isNotFound err then None (* delete is idempotent *) else err in
  ret err.

(** *** Query *)

(** [q.Prefix = ...] on the by-value copy of the descriptor. *)
Definition set_Prefix (q : dsq.Query) (prefix : string) : dsq.Query :=
  {| dsq.Prefix := prefix;
     dsq.Filters := dsq.Filters q;
     dsq.Orders := dsq.Orders q;
     dsq.Limit := dsq.Limit q;
     dsq.Offset := dsq.Offset q;
     dsq.KeysOnly := dsq.KeysOnly q;
     dsq.ReturnExpirations := dsq.ReturnExpirations q;
     dsq.ReturnsSizes := dsq.ReturnsSizes q |}.

(** [entry.Value = value] *)
Definition set_Value (entry : dsq.Entry) (value : slice Byte.byte)
  : dsq.Entry :=
  {| dsq.Key := dsq.Key entry;
     dsq.Value := value;
     dsq.Size := dsq.Size entry |}.

(** [s != nil] for a slice. *)
Definition not_nil {A : Type} (s : slice A) : bool :=
  match s with
  | None => false
  | Some _ => true
  end.

(** The options of the listing request, storj.go:155. *)
Definition list_options (prefix : string) : uplink.ListObjectsOptions :=
  {| uplink.Prefix := prefix;
     uplink.Cursor := "";
     uplink.Recursive := true;
     uplink.WithSystem := true;
     uplink.WithCustom := false |}.

(** The [Next] closure of the iterator, storj.go:169.  It captures
    [storj], [q] and the cursor [list]; the cursor it advanced is returned
    with its result. *)
Definition Iterator_Next (storj : StorjDS R Upload ObjectIterator)
    (q : dsq.Query) (list : ObjectIterator)
  : M R ((dsq.Result * bool) * ObjectIterator) :=
  let failed err := {| dsq.Entry_of := dsq.Entry_zero; dsq.Error := Some err |} in
  let (more, list) := uplink.ObjectIterator_Next (Project storj) list in
  if negb more then
    match uplink.ObjectIterator_Err (Project storj) list with
    | Some err => ret (failed err, false, list)
    | None => ret (dsq.Result_zero, false, list)
    end
  else
    let item := uplink.ObjectIterator_Item (Project storj) list in
    let entry :=
      {| dsq.Key := entryKey (uplink.Key item);
         dsq.Value := None;
         dsq.Size := int_of_int64 (uplink.ContentLength (uplink.System item)) |} in
    if negb (dsq.KeysOnly q) then
      do '(value, err) <- Get storj (NewKey (dsq.Key entry)) ;
      match err with
      | Some err => ret (failed err, false, list)
      | None =>
          ret ({| dsq.Entry_of := set_Value entry value; dsq.Error := None |},
               true, list)
      end
    else
      ret ({| dsq.Entry_of := entry; dsq.Error := None |}, true, list).

(** The [Close] closure, storj.go:166. *)
Definition Iterator_Close : M R (option error) := ret None.

(** What [dsq.ResultsFromIterator(q, dsq.Iterator{Close, Next})] holds:
    the query and the state its two closures captured. *)
Record Results : Type := {
  Results_Query : dsq.Query;
  Results_storj : StorjDS R Upload ObjectIterator;
  Results_list : ObjectIterator
}.

(** [NextSync] of the results: one call of the [Next] closure. *)
Definition NextSync (r : Results) : M R ((dsq.Result * bool) * Results) :=
  do '(out, list) <- Iterator_Next (Results_storj r) (Results_Query r)
                       (Results_list r) ;
  ret (out, {| Results_Query := Results_Query r;
               Results_storj := Results_storj r;
               Results_list := list |}).

(** storj.go:145 *)
Definition Query (storj : StorjDS R Upload ObjectIterator) (q : dsq.Query)
  : M R (option Results * option error) :=
  logger_Print (LogQuery q) ;;
  if not_nil (dsq.Orders q) || not_nil (dsq.Filters q) then
    ret (None, Some (ErrorString "storjds: filters or orders are not supported"))
  else
    let q := set_Prefix q (TrimPrefix (dsq.Prefix q) "/") in
    do list <- request
                 (uplink.CallListObjects (Bucket (conf storj))
                    (list_options (dsq.Prefix q)))
                 (uplink.ListObjects (Project storj) (Bucket (conf storj))
                    (list_options (dsq.Prefix q))) ;
    match uplink.ObjectIterator_Err (Project storj) list with
    | Some err => ret (None, Some err)
    | None =>
        ret (Some {| Results_Query := q;
                     Results_storj := storj;
                     Results_list := list |}, None)
    end.

(** The result sequence as its consumer sees it: the entries of the first
    [n] results, up to the first one the iterator reports with [false]. *)
Fixpoint produced (n : nat) (r : Results) : M R (list dsq.Entry) :=
  match n with
  | O => ret []
  | S n =>
      do '(out, r) <- NextSync r ;
      let (result, ok) := out : dsq.Result * bool in
      if ok then
        do rest <- produced n r ;
        ret (dsq.Entry_of result :: rest)
      else ret []
  end.

(** The objects the remote cursor serves to its first [n] calls of
    [Next], up to the first call that reports [false]. *)
Fixpoint served (project : uplink.Project R Upload ObjectIterator)
    (n : nat) (cursor : ObjectIterator) : list uplink.Object :=
  match n with
  | O => []
  | S n =>
      let (more, cursor) := uplink.ObjectIterator_Next project cursor in
      if more
      then uplink.ObjectIterator_Item project cursor :: served project n cursor
      else []
  end.

(** *** Batch *)

(** [make(map[ds.Key]batchOp)]: a fresh, empty map. *)
Definition make_map : M R loc :=
  fun w =>
    let l := fresh (dom (heap w)) in
    (l, mkWorld (remote w) (calls w) (logged w) (<[l := ∅]> (heap w))).

(** The map a reference denotes.  Every [storjBatch] is built by [Batch],
    so its reference is allocated; one that is not reads as empty. *)
Definition map_at (w : World R) (l : loc) : gmap Key batchOp :=
  default ∅ (heap w !! l).

(** [m[key] = op] *)
Definition map_assign (l : loc) (key : Key) (op : batchOp) : M R unit :=
  fun w =>
    (tt, mkWorld (remote w) (calls w) (logged w)
           (<[l := <[key := op]> (map_at w l)]> (heap w))).

(** storj.go:194 *)
Definition Batch (storj : StorjDS R Upload ObjectIterator)
  : M R (storjBatch R Upload ObjectIterator * option error) :=
  logger_Print LogBatch ;;
  do m <- make_map ;
  ret ({| storj := storj; ops := m |}, None).

(** storj.go:233 *)
Definition Batch_Put (b : storjBatch R Upload ObjectIterator) (key : Key)
    (val : slice Byte.byte) : M R (option error) :=
  logger_Print (LogBatchPut (Key_String key) (len val)) ;;
  map_assign (ops b) key {| value := val; delete := false |} ;;
  ret None.

(** storj.go:244 *)
Definition Batch_Delete (b : storjBatch R Upload ObjectIterator) (key : Key)
  : M R (option error) :=
  logger_Print (LogBatchDelete (Key_String key)) ;;
  map_assign (ops b) key {| value := None; delete := true |} ;;
  ret None.

(** The body of [for key, op := range b.ops], storj.go:259. *)
Definition Commit_step (b : storjBatch R Upload ObjectIterator)
    (key : Key) (op : batchOp) : M R (option error) :=
  if delete op then Delete (storj b) key
  else Put (storj b) key (value op).

(** The loop of [Commit] along the order in which [range] visits the
    entries of the map. *)
Fixpoint Commit_range (b : storjBatch R Upload ObjectIterator)
    (order : list (Key * batchOp)) : M R (option error) :=
  match order with
  | [] => ret None
  | (key, op) :: order =>
      do err <- Commit_step b key op ;
      match err with
      | Some err => ret (Some err)
      | None => Commit_range b order
      end
  end.

(** storj.go:255, for the order [range] takes. *)
Definition Commit (b : storjBatch R Upload ObjectIterator)
    (order : list (Key * batchOp)) : M R (option error) :=
  logger_Print LogBatchCommit ;;
  Commit_range b order.

(** Go leaves the order of [range] over a map unspecified: it visits
    every entry once, in any order. *)
Definition range_order (b : storjBatch R Upload ObjectIterator) (w : World R)
    (order : list (Key * batchOp)) : Prop :=
  order ≡ₚ map_to_list (map_at w (ops b)).

(** A caller's accumulation calls on one batch, and running them in
    order; the errors they return are collected. *)
Inductive BatchCall : Type :=
  | CallPut (key : Key) (val : slice Byte.byte)
  | CallDelete (key : Key).

Definition call_key (c : BatchCall) : Key :=
  match c with
  | CallPut key _ => key
  | CallDelete key => key
  end.

(** The pending operation a call records. *)
Definition call_op (c : BatchCall) : batchOp :=
  match c with
  | CallPut _ val => {| value := val; delete := false |}
  | CallDelete _ => {| value := None; delete := true |}
  end.

Definition accumulate_one (b : storjBatch R Upload ObjectIterator)
    (c : BatchCall) : M R (option error) :=
  match c with
  | CallPut key val => Batch_Put b key val
  | CallDelete key => Batch_Delete b key
  end.

Fixpoint accumulate (b : storjBatch R Upload ObjectIterator)
    (cs : list BatchCall) : M R (list (option error)) :=
  match cs with
  | [] => ret []
  | c :: cs =>
      do err <- accumulate_one b c ;
      do errs <- accumulate b cs ;
      ret (err :: errs)
  end.

(** The map a batch holds once the calls [cs] ran on it, when it held [m]
    before them, and the log lines the calls print. *)
Definition pending (cs : list BatchCall) (m : gmap Key batchOp)
  : gmap Key batchOp :=
  foldl (fun m c => <[call_key c := call_op c]> m) m cs.

Definition call_log (c : BatchCall) : LogLine :=
  match c with
  | CallPut key val => LogBatchPut (Key_String key) (len val)
  | CallDelete key => LogBatchDelete (Key_String key)
  end.

(** An entry of a query result carries the key and the size of a remote
    object. *)
Definition carries (e : dsq.Entry) (obj : uplink.Object) : Prop :=
  dsq.Key e = "/" +:+ uplink.Key obj
  /\ dsq.Size e = int_of_int64 (uplink.ContentLength (uplink.System obj)).

End Datastore.

Arguments Results : clear implicits.

(** ** An in-memory client *)

(** One bucket held in memory, with the failures a remote store can show:
    keys whose requests are refused, and keys whose download breaks off
    after some bytes. *)
Module Fake.

Record Remote : Type := {
  objects : gmap string (list Byte.byte);
  staged : gmap string (list Byte.byte);        (* uploads not yet committed *)
  refused : gset string;
  cut_after : gmap string nat
}.

Record Cursor : Type := {
  current : uplink.Object;
  pending : list uplink.Object
}.

Definition unavailable : error := ErrorString "remote unavailable".
Definition reset : error := ErrorString "connection reset".
Definition not_found (key : string) : error :=
  Wrapped ("uplink: object not found (" +:+ key +:+ ")") ErrObjectNotFound.

Definition object_of (key : string) (data : list Byte.byte) : uplink.Object :=
  {| uplink.Key := key;
     uplink.IsPrefix := false;
     uplink.System := {| uplink.ContentLength := Z.of_nat (length data) |} |}.

Definition with_objects (r : Remote) (o : gmap string (list Byte.byte))
  : Remote :=
  {| objects := o; staged := staged r; refused := refused r;
     cut_after := cut_after r |}.

Definition with_staged (r : Remote) (s : gmap string (list Byte.byte))
  : Remote :=
  {| objects := objects r; staged := s; refused := refused r;
     cut_after := cut_after r |}.

Definition UploadObject (bucket key : string) (r : Remote)
  : uplink.res string * Remote :=
  if decide (key ∈ refused r) then (uplink.Err unavailable, r)
  else (uplink.Ok key, with_staged r (<[key := []]> (staged r))).

Definition Write (upload : string) (p : slice Byte.byte) (r : Remote)
  : (Z * option error) * Remote :=
  ((Z.of_nat (len p), None),
   with_staged r
     (<[upload := default [] (staged r !! upload) ++ elems p]> (staged r))).

Definition Commit (upload : string) (r : Remote) : option error * Remote :=
  (None,
   {| objects := <[upload := default [] (staged r !! upload)]> (objects r);
      staged := base.delete upload (staged r);
      refused := refused r;
      cut_after := cut_after r |}).

Definition DownloadObject (bucket key : string) (r : Remote)
  : uplink.res uplink.Download * Remote :=
  if decide (key ∈ refused r) then (uplink.Err unavailable, r)
  else match objects r !! key with
       | None => (uplink.Err (not_found key), r)
       | Some data =>
           match cut_after r !! key with
           | None =>
               (uplink.Ok [ {| uplink.read_bytes := data;
                               uplink.read_err := None |} ], r)
           | Some n =>
               (uplink.Ok [ {| uplink.read_bytes := take n data;
                               uplink.read_err := None |};
                            {| uplink.read_bytes := [];
                               uplink.read_err := Some reset |} ], r)
           end
       end.

Definition StatObject (bucket key : string) (r : Remote)
  : uplink.res uplink.Object * Remote :=
  if decide (key ∈ refused r) then (uplink.Err unavailable, r)
  else match objects r !! key with
       | None => (uplink.Err (not_found key), r)
       | Some data => (uplink.Ok (object_of key data), r)
       end.

Definition DeleteObject (bucket key : string) (r : Remote)
  : uplink.res uplink.Object * Remote :=
  if decide (key ∈ refused r) then (uplink.Err unavailable, r)
  else match objects r !! key with
       | None => (uplink.Err (not_found key), r)
       | Some data =>
           (uplink.Ok (object_of key data),
            with_objects r (base.delete key (objects r)))
       end.

Definition ListObjects (bucket : string) (options : uplink.ListObjectsOptions)
    (r : Remote) : Cursor * Remote :=
  ({| current := object_of "" [];
      pending :=
        (fun kv => object_of (fst kv) (snd kv)) <$>
        List.filter (fun kv => HasPrefix (fst kv) (uplink.Prefix options))
                    (map_to_list (objects r)) |}, r).

Definition Next (c : Cursor) : bool * Cursor :=
  match pending c with
  | [] => (false, c)
  | obj :: rest => (true, {| current := obj; pending := rest |})
  end.

Definition project : uplink.Project Remote string Cursor :=
  {| uplink.UploadObject := UploadObject;
     uplink.Upload_Write := Write;
     uplink.Upload_Commit := Commit;
     uplink.DownloadObject := DownloadObject;
     uplink.StatObject := StatObject;
     uplink.DeleteObject := DeleteObject;
     uplink.ListObjects := ListObjects;
     uplink.ObjectIterator_Next := Next;
     uplink.ObjectIterator_Err := fun _ => None;
     uplink.ObjectIterator_Item := current |}.

Definition storj : StorjDS Remote string Cursor :=
  {| conf := {| AccessGrant := "grant"; Bucket := "ipfs"; LogFile := "" |};
     Project := project |}.

(** On a path that is already clean, [ds.NewKey] only makes sure of the
    leading separator. *)
Definition NewKey (s : string) : Key :=
  if HasPrefix s "/" then RawKey s else RawKey ("/" +:+ s).

Definition bytes (s : string) : list Byte.byte := String.list_byte_of_string s.

Definition empty : Remote :=
  {| objects := ∅; staged := ∅; refused := ∅; cut_after := ∅ |}.

Definition start (r : Remote) : World Remote :=
  mkWorld r [] [] ∅.

(** Three stored objects, and the query for those under [/a]. *)
Definition stocked : Remote :=
  {| objects :=
       {[ "a/1" := bytes "x"; "a/2" := bytes "yy"; "b/1" := bytes "z" ]};
     staged := ∅; refused := ∅; cut_after := ∅ |}.

Definition query_a (keysOnly : bool) : dsq.Query :=
  {| dsq.Prefix := "/a";
     dsq.Filters := None;
     dsq.Orders := None;
     dsq.Limit := 0;
     dsq.Offset := 0;
     dsq.KeysOnly := keysOnly;
     dsq.ReturnExpirations := false;
     dsq.ReturnsSizes := false |}.

(** A store that refuses every request on the key [bad]. *)
Definition refusing_bad : Remote :=
  {| objects := ∅; staged := ∅; refused := {[ "bad" ]}; cut_after := ∅ |}.

(** A fresh batch on the store [r], and the world it lives in. *)
Definition fresh_batch (r : Remote) : storjBatch Remote string Cursor :=
  fst (fst (Batch storj (start r))).

Definition fresh_world (r : Remote) : World Remote :=
  snd (Batch storj (start r)).

End Fake.

(** ** Opening and closing the datastore *)

Module host.

(** What [NewStorjDatastore] and [Close] reach outside the package: the
    file system ([os.OpenFile] and the [Close] of the file), the entry
    points of the uplink library ([uplink.ParseAccess],
    [uplink.OpenProject] and the [Close] of the project), the text [%s]
    formats an error to (its
    [Error] method) and [errs.Combine].  [H] is the state of the host the
    calls read and change. *)
Record Host (H File Access R Upload ObjectIterator : Type) : Type := {
  OpenFile : string -> H -> uplink.res File * H;
  File_Close : File -> H -> option error * H;
  ParseAccess : string -> uplink.res Access;
  OpenProject :
    Access -> H -> uplink.res (uplink.Project R Upload ObjectIterator) * H;
  Project_Close : uplink.Project R Upload ObjectIterator -> H -> option error * H;
  Error_text : error -> string;
  Combine : option error -> option error -> option error
}.
Arguments OpenFile {H File Access R Upload ObjectIterator}.
Arguments File_Close {H File Access R Upload ObjectIterator}.
Arguments ParseAccess {H File Access R Upload ObjectIterator}.
Arguments OpenProject {H File Access R Upload ObjectIterator}.
Arguments Project_Close {H File Access R Upload ObjectIterator}.
Arguments Error_text {H File Access R Upload ObjectIterator}.
Arguments Combine {H File Access R Upload ObjectIterator}.

(** The two lines printed outside the datastore operations. *)
Inductive Line : Type :=
  | LineNewStorjDatastore
  | LineClose.

(** What was asked of the host, in order.  [Print] records the sink of
    the logger: the log file, or [None] for [io.Discard]. *)
Inductive Call (File : Type) : Type :=
  | CallOpenFile (name : string)
  | CallPrint (sink : option File) (line : Line)
  | CallParseAccess (accessGrant : string)
  | CallOpenProject
  | CallProjectClose
  | CallFileClose (file : File).
Arguments CallOpenFile {File} name.
Arguments CallPrint {File} sink line.
Arguments CallParseAccess {File} accessGrant.
Arguments CallOpenProject {File}.
Arguments CallProjectClose {File}.
Arguments CallFileClose {File} file.

End host.

Section Lifecycle.

Context {H File Access R Upload ObjectIterator : Type}.
Variable env : host.Host H File Access R Upload ObjectIterator.

(** The host and the calls made to it so far. *)
Record Machine : Type := mkMachine {
  os : H;
  asked : list (host.Call File)
}.

(** A call that changes the host, recorded in [asked]. *)
Definition ask {A : Type} (c : host.Call File) (f : H -> A * H)
  : Machine -> A * Machine :=
  fun m => let (a, h) := f (os m) in (a, mkMachine h (asked m ++ [c])).

(** A call that only reads its arguments, recorded as well. *)
Definition note (c : host.Call File) : Machine -> Machine :=
  fun m => mkMachine (os m) (asked m ++ [c]).

(** The [*StorjDS] the constructor returns: the fields of [StorjDS]
    together with [logFile], which is [None] for a nil file; the logger
    writes to that file, or discards when there is none. *)
Record Opened : Type := {
  datastore : StorjDS R Upload ObjectIterator;
  logFile : option File
}.

(** [fmt.Errorf(format + ": %s", err)] *)
Definition Errorf_s (text : string) (err : error) : error :=
  ErrorString (text +:+ host.Error_text env err).

(** storj.go:36 *)
Definition NewStorjDatastore (conf : Config) (m : Machine)
  : (option Opened * option error) * Machine :=
  let opened :=
    if Nat.ltb 0 (String.length (LogFile conf)) then
      let (r, m) := ask (host.CallOpenFile (LogFile conf))
                        (host.OpenFile env (LogFile conf)) m in
      match r with
      | uplink.Err err => (uplink.Err err, m)
      | uplink.Ok file => (uplink.Ok (Some file), m)
      end
    else (uplink.Ok None, m) in
  let (r, m) := opened : uplink.res (option File) * Machine in
  match r with
  | uplink.Err err =>
      ((None, Some (Errorf_s "failed to create log file: " err)), m)
  | uplink.Ok logFile =>
      let m := note (host.CallPrint logFile host.LineNewStorjDatastore) m in
      let m := note (host.CallParseAccess (AccessGrant conf)) m in
      match host.ParseAccess env (AccessGrant conf) with
      | uplink.Err err =>
          ((None, Some (Errorf_s "failed to parse access grant: " err)), m)
      | uplink.Ok access =>
          let (r, m) := ask host.CallOpenProject (host.OpenProject env access) m in
          match r with
          | uplink.Err err =>
              ((None, Some (Errorf_s "failed to open project: " err)), m)
          | uplink.Ok project =>
              ((Some {| datastore := {| conf := conf; Project := project |};
                        logFile := logFile |}, None), m)
          end
      end
  end.

(** storj.go:203 *)
Definition Close (storj : Opened) (m : Machine) : option error * Machine :=
  let m := note (host.CallPrint (logFile storj) host.LineClose) m in
  let (err, m) := ask host.CallProjectClose
                      (host.Project_Close env (Project (datastore storj))) m in
  match logFile storj with
  | Some file =>
      let (ferr, m) := ask (host.CallFileClose file) (host.File_Close env file) m in
      (host.Combine env err ferr, m)
  | None => (err, m)
  end.

End Lifecycle.

Arguments Machine : clear implicits.
Arguments Opened : clear implicits.

(** ** Helpers of the statements *)

(** The innermost cause of an error. *)
Fixpoint root (err : error) : error :=
  match err with
  | Wrapped _ cause => root cause
  | _ => err
  end.

(** The download request that fetches the value of a listed object,
    storj.go:183: [storj.Get(ds.NewKey(entry.Key))]. *)
Definition hydration_request (NewKey : string -> Key) (bucket : string)
    (obj : uplink.Object) : uplink.Call :=
  uplink.CallDownloadObject bucket (storjKey (NewKey (entryKey (uplink.Key obj)))).


(** A host in memory: it refuses to open [/forbidden], rejects the empty
    access grant and cannot reach the project of the grant [revoked]. *)
Module FakeHost.

Definition OpenFile (name : string) (h : list string)
  : uplink.res string * list string :=
  if decide (name = "/forbidden")
  then (uplink.Err (ErrorString "permission denied"), h)
  else (uplink.Ok name, name :: h).

Definition File_Close (file : string) (h : list string)
  : option error * list string :=
  if decide (file ∈ h) then (None, List.filter (fun f => negb (String.eqb f file)) h)
  else (Some (ErrorString "file already closed"), h).

Definition ParseAccess (accessGrant : string) : uplink.res string :=
  if decide (accessGrant = "")
  then uplink.Err (ErrorString "access grant invalid")
  else uplink.Ok accessGrant.

Definition OpenProject (access : string) (h : list string)
  : uplink.res (uplink.Project Fake.Remote string Fake.Cursor) * list string :=
  if decide (access = "revoked")
  then (uplink.Err (Wrapped "dial failed" EOF), h)
  else (uplink.Ok Fake.project, h).

Definition Error_text (err : error) : string :=
  match err with
  | ErrObjectNotFound => "object not found"
  | ErrNotFound => "datastore: key not found"
  | EOF => "EOF"
  | ErrorString msg => msg
  | Wrapped msg _ => msg
  end.

Definition Combine (a b : option error) : option error :=
  match a, b with
  | None, e => e
  | e, None => e
  | Some ea, Some eb =>
      Some (Wrapped (Error_text ea +:+ "; " +:+ Error_text eb) ea)
  end.

Definition env : host.Host (list string) string string Fake.Remote string Fake.Cursor :=
  {| host.OpenFile := OpenFile;
     host.File_Close := File_Close;
     host.ParseAccess := ParseAccess;
     host.OpenProject := OpenProject;
     host.Project_Close := fun _ h => (None, h);
     host.Error_text := Error_text;
     host.Combine := Combine |}.

Definition boot : Machine (list string) string := mkMachine [] [].

Definition config (grant logfile : string) : Config :=
  {| AccessGrant := grant; Bucket := "ipfs"; LogFile := logfile |}.

End FakeHost.

(** * Properties *)

(** ** Strings, integers and errors *)

Lemma substring_all (s : string) : String.substring 0 (String.length s) s = s.
Proof. induction s as [|a s IH]; simpl; [done | by rewrite IH]. Qed.

Lemma substring_none (s : string) : String.substring 0 0 s = "".
Proof. by destruct s. Qed.

Lemma TrimPrefix_slash (s : string) : TrimPrefix ("/" +:+ s) "/" = s.
Proof.
  unfold TrimPrefix, HasPrefix, String.append. cbn.
  rewrite substring_none, bool_decide_eq_true_2 by done.
  rewrite Nat.sub_0_r. apply substring_all.
Qed.

Lemma HasPrefix_slash (s : string) :
  HasPrefix s "/" = true -> exists rest, s = "/" +:+ rest.
Proof.
  unfold HasPrefix. destruct s as [|a s]; cbn; [done |].
  rewrite substring_none. intros H%bool_decide_eq_true.
  exists s. unfold String.append. congruence.
Qed.

Lemma TrimPrefix_no_slash (s : string) :
  HasPrefix s "/" = false -> TrimPrefix s "/" = s.
Proof. unfold TrimPrefix. by intros ->. Qed.

Lemma int_of_int64_id (x : Z) : is_int64 x -> int_of_int64 x = x.
Proof.
  unfold is_int64, int_of_int64, wrap, int_bits. intros Hx.
  change (2 ^ (64 - 1))%Z with (2 ^ 63)%Z.
  rewrite Z.mod_small; lia.
Qed.

Lemma isNotFound_sentinel : isNotFound (Some ErrObjectNotFound) = true.
Proof. reflexivity. Qed.

Lemma isNotFound_wrapped (msg : string) (cause : error) :
  isNotFound (Some (Wrapped msg cause)) = isNotFound (Some cause).
Proof.
  unfold isNotFound.
  change (errors_Is (Wrapped msg cause) ErrObjectNotFound)
    with (if decide (Wrapped msg cause = ErrObjectNotFound) then true
          else errors_Is cause ErrObjectNotFound).
  by case_decide.
Qed.

Lemma isNotFound_nil : isNotFound None = false.
Proof. reflexivity. Qed.

(** ** The key codec *)

(** C1.  For every datastore key in canonical form (its string begins with
    the separator), stripping the leading separator with [storjKey] and
    prepending a separator again, as the query iterator does, gives back
    the string of the key, hence the key itself. *)
Theorem key_codec_round_trip (K : Key) :
  HasPrefix (Key_String K) "/" = true ->
  entryKey (storjKey K) = Key_String K
  /\ RawKey (entryKey (storjKey K)) = K.
Proof.
  intros [rest Hrest]%HasPrefix_slash.
  assert (entryKey (storjKey K) = Key_String K) as Heq.
  { unfold storjKey, entryKey. rewrite Hrest. by rewrite TrimPrefix_slash. }
  split; [exact Heq |].
  rewrite Heq. by destruct K.
Qed.

Lemma key_codec_round_trip_witness :
  entryKey (storjKey (RawKey "/a/b")) = "/a/b"
  /\ RawKey (entryKey (storjKey (RawKey "/a/b"))) = RawKey "/a/b".
Proof. apply (key_codec_round_trip (RawKey "/a/b")). reflexivity. Defined.

(** ** Single-object operations *)

(** Unfolds the state passing of one call. *)
Ltac run_call :=
  unfold bind, ret, logger_Print, request;
  cbn [fst snd remote calls logged heap].

(** C8.  [Has] answers [(false, nil)] when the stat probe reports
    not-found and [(true, nil)] when it succeeds; any other error of the
    probe is returned as it is, so an error [Has] returns is never a
    not-found one. *)
Theorem Has_not_found_is_false {R Upload ObjectIterator : Type}
    (storj : StorjDS R Upload ObjectIterator) (key : Key) (w : World R) :
  let probe :=
    fst (uplink.StatObject (Project storj) (Bucket (conf storj))
           (storjKey key) (remote w)) in
  let out := fst (Has storj key w) in
  (forall err, probe = uplink.Err err -> isNotFound (Some err) = true ->
               out = (false, None))
  /\ (forall obj, probe = uplink.Ok obj -> out = (true, None))
  /\ (forall err, probe = uplink.Err err -> isNotFound (Some err) = false ->
                  out = (false, Some err))
  /\ (forall err, snd out = Some err -> isNotFound (Some err) = false).
Proof.
  cbv zeta. unfold Has. run_call.
  destruct (uplink.StatObject _ _ _ _) as [[obj | e] r]; cbn [fst snd].
  - repeat split; try done.
  - destruct (isNotFound (Some e)) eqn:He; cbn [fst snd];
      repeat split; intros; simplify_eq; congruence.
Qed.

Lemma Has_not_found_is_false_witness :
  fst (Has Fake.storj (RawKey "/missing") (Fake.start Fake.empty)) = (false, None)
  /\ fst (Has Fake.storj (RawKey "/a")
            (snd (Put Fake.storj (RawKey "/a") (Some (Fake.bytes "v"))
                    (Fake.start Fake.empty)))) = (true, None).
Proof.
  split.
  - apply (proj1 (Has_not_found_is_false Fake.storj (RawKey "/missing")
                    (Fake.start Fake.empty)) (Fake.not_found "missing"));
      reflexivity.
  - apply (proj1 (proj2 (Has_not_found_is_false Fake.storj (RawKey "/a") _))
             (Fake.object_of "a" (Fake.bytes "v"))).
    vm_compute. reflexivity.
Defined.

(** C7.  [GetSize] returns the not-found sentinel of the datastore,
    [ds.ErrNotFound], when the stat probe reports not-found; the content
    length of the stat metadata, with a nil error, when the probe
    succeeds; and any other error of the probe unchanged. *)
Theorem GetSize_not_found_is_sentinel {R Upload ObjectIterator : Type}
    (storj : StorjDS R Upload ObjectIterator) (key : Key) (w : World R) :
  let probe :=
    fst (uplink.StatObject (Project storj) (Bucket (conf storj))
           (storjKey key) (remote w)) in
  let out := fst (GetSize storj key w) in
  (forall err, probe = uplink.Err err -> isNotFound (Some err) = true ->
               out = ((-1)%Z, Some ErrNotFound))
  /\ (forall obj, probe = uplink.Ok obj ->
                  is_int64 (uplink.ContentLength (uplink.System obj)) ->
                  out = (uplink.ContentLength (uplink.System obj), None))
  /\ (forall err, probe = uplink.Err err -> isNotFound (Some err) = false ->
                  out = ((-1)%Z, Some err)).
Proof.
  cbv zeta. unfold GetSize. run_call.
  destruct (uplink.StatObject _ _ _ _) as [[obj | e] r]; cbn [fst snd].
  - repeat split; try done.
    intros obj' [= <-] Hlen. by rewrite int_of_int64_id.
  - destruct (isNotFound (Some e)) eqn:He; cbn [fst snd];
      repeat split; intros; simplify_eq; congruence.
Qed.

Lemma GetSize_not_found_is_sentinel_witness :
  fst (GetSize Fake.storj (RawKey "/missing") (Fake.start Fake.empty))
  = ((-1)%Z, Some ErrNotFound)
  /\ fst (GetSize Fake.storj (RawKey "/a")
            (snd (Put Fake.storj (RawKey "/a") (Some (Fake.bytes "abc"))
                    (Fake.start Fake.empty)))) = (3%Z, None).
Proof.
  split.
  - apply (proj1 (GetSize_not_found_is_sentinel Fake.storj (RawKey "/missing")
                    (Fake.start Fake.empty)) (Fake.not_found "missing"));
      reflexivity.
  - apply (proj1 (proj2 (GetSize_not_found_is_sentinel Fake.storj (RawKey "/a") _))
             (Fake.object_of "a" (Fake.bytes "abc"))).
    + vm_compute. reflexivity.
    + unfold is_int64. cbn. lia.
Defined.

(** C9.  [Delete] returns nil when the backend reports not-found, so it
    succeeds on a key that was never put and on a key already deleted;
    any other reply of the backend, error or nil, is returned unchanged. *)
Theorem Delete_is_idempotent {R Upload ObjectIterator : Type}
    (storj : StorjDS R Upload ObjectIterator) (key : Key) (w : World R) :
  let reply :=
    err_of (fst (uplink.DeleteObject (Project storj) (Bucket (conf storj))
                   (storjKey key) (remote w))) in
  let out := fst (Delete storj key w) in
  (isNotFound reply = true -> out = None)
  /\ (isNotFound reply = false -> out = reply).
Proof.
  cbv zeta. unfold Delete. run_call.
  destruct (uplink.DeleteObject _ _ _ _) as [d r]; cbn [fst snd].
  destruct (isNotFound (err_of d)); split; intros; congruence.
Qed.

Lemma Delete_is_idempotent_witness :
  fst (Delete Fake.storj (RawKey "/a") (Fake.start Fake.empty)) = None
  /\ (let w1 := snd (Put Fake.storj (RawKey "/a") (Some (Fake.bytes "v"))
                       (Fake.start Fake.empty)) in
      let w2 := snd (Delete Fake.storj (RawKey "/a") w1) in
      fst (Delete Fake.storj (RawKey "/a") w1) = None
      /\ fst (Delete Fake.storj (RawKey "/a") w2) = None).
Proof.
  split; [| cbv zeta; split].
  - apply (proj1 (Delete_is_idempotent Fake.storj (RawKey "/a")
                    (Fake.start Fake.empty))).
    reflexivity.
  - etransitivity;
      [apply (proj2 (Delete_is_idempotent Fake.storj (RawKey "/a") _)) |];
      vm_compute; reflexivity.
  - apply (proj1 (Delete_is_idempotent Fake.storj (RawKey "/a") _)).
    vm_compute. reflexivity.
Defined.

(** *** Get *)

(** When the download cannot be opened, [Get] returns a nil value with
    the error: [ds.ErrNotFound] for a not-found reply, the reply itself
    otherwise. *)
Lemma Get_open_failure {R Upload ObjectIterator : Type}
    (storj : StorjDS R Upload ObjectIterator) (key : Key) (w : World R)
    (err : error) :
  fst (uplink.DownloadObject (Project storj) (Bucket (conf storj))
         (storjKey key) (remote w)) = uplink.Err err ->
  fst (Get storj key w)
  = (None, Some (if isNotFound (Some err) then ErrNotFound else err)).
Proof.
  unfold Get. run_call.
  destruct (uplink.DownloadObject _ _ _ _) as [d r]; cbn [fst snd].
  intros ->. by destruct (isNotFound (Some err)).
Qed.

(** Once the download is open, [Get] returns whatever [ReadAll] does. *)
Lemma Get_open_success {R Upload ObjectIterator : Type}
    (storj : StorjDS R Upload ObjectIterator) (key : Key) (w : World R)
    (download : uplink.Download) :
  fst (uplink.DownloadObject (Project storj) (Bucket (conf storj))
         (storjKey key) (remote w)) = uplink.Ok download ->
  fst (Get storj key w) = ReadAll download.
Proof.
  unfold Get. run_call.
  destruct (uplink.DownloadObject _ _ _ _) as [d r]; cbn [fst snd].
  by intros ->.
Qed.

(** [ReadAll] keeps the bytes read before a failing [Read] and returns
    them with its error. *)
Lemma ReadAll_loop_failure (good : uplink.Download) (bad : uplink.ReadStep)
    (rest : uplink.Download) (b : list Byte.byte) (err : error) :
  Forall (fun step => uplink.read_err step = None) good ->
  uplink.read_err bad = Some err ->
  err <> EOF ->
  ReadAll_loop (good ++ bad :: rest) b
  = (b ++ concat (uplink.read_bytes <$> good) ++ uplink.read_bytes bad, Some err).
Proof.
  intros Hgood Hbad Hneq. revert b.
  induction Hgood as [| step good Hstep _ IH]; intros b; cbn.
  - rewrite Hbad. by rewrite decide_False.
  - rewrite Hstep, IH. by rewrite <- !(assoc_L (++)).
Qed.

(** A stream that ends cleanly is read whole. *)
Lemma ReadAll_loop_clean (good : uplink.Download) (b : list Byte.byte) :
  Forall (fun step => uplink.read_err step = None) good ->
  ReadAll_loop good b = (b ++ concat (uplink.read_bytes <$> good), None).
Proof.
  intros Hgood. revert b.
  induction Hgood as [| step good Hstep _ IH]; intros b; cbn.
  - by rewrite app_nil_r.
  - rewrite Hstep, IH. by rewrite <- !(assoc_L (++)).
Qed.

(** A download that opens and then fails while being read: [Get] returns
    the error of the failing [Read] together with every byte read up to
    it. *)
Lemma Get_read_failure {R Upload ObjectIterator : Type}
    (storj : StorjDS R Upload ObjectIterator) (key : Key) (w : World R)
    (good : uplink.Download) (bad : uplink.ReadStep) (rest : uplink.Download)
    (err : error) :
  fst (uplink.DownloadObject (Project storj) (Bucket (conf storj))
         (storjKey key) (remote w)) = uplink.Ok (good ++ bad :: rest) ->
  Forall (fun step => uplink.read_err step = None) good ->
  uplink.read_err bad = Some err ->
  err <> EOF ->
  fst (Get storj key w)
  = (Some (concat (uplink.read_bytes <$> good) ++ uplink.read_bytes bad),
     Some err).
Proof.
  intros Hopen Hgood Hbad Hneq.
  rewrite (Get_open_success storj key w _ Hopen). unfold ReadAll.
  by rewrite (ReadAll_loop_failure good bad rest [] err).
Qed.

(** A download that opens and is read to its end: [Get] returns the whole
    payload and a nil error. *)
Lemma Get_read_success {R Upload ObjectIterator : Type}
    (storj : StorjDS R Upload ObjectIterator) (key : Key) (w : World R)
    (good : uplink.Download) :
  fst (uplink.DownloadObject (Project storj) (Bucket (conf storj))
         (storjKey key) (remote w)) = uplink.Ok good ->
  Forall (fun step => uplink.read_err step = None) good ->
  fst (Get storj key w) = (Some (concat (uplink.read_bytes <$> good)), None).
Proof.
  intros Hopen Hgood.
  rewrite (Get_open_success storj key w _ Hopen). unfold ReadAll.
  by rewrite (ReadAll_loop_clean good []).
Qed.

(** C6.  [Get] on an object of five bytes whose download breaks off after
    two: the call returns the connection error together with the two
    bytes read before it, not a nil or empty value. *)
Theorem Get_read_failure_returns_partial_payload :
  let r := {| Fake.objects := {[ "a" := Fake.bytes "hello" ]};
              Fake.staged := ∅;
              Fake.refused := ∅;
              Fake.cut_after := {[ "a" := 2 ]} |} in
  fst (Get Fake.storj (RawKey "/a") (Fake.start r))
  = (Some (Fake.bytes "he"), Some Fake.reset).
Proof. vm_compute. reflexivity. Qed.

(** *** Query *)

(** C4.  A query whose descriptor holds at least one order or one filter
    fails with the unsupported-query error and no result sequence; the
    only thing the call does is print its log line: no request is sent
    and the remote side is untouched. *)
Theorem Query_rejects_orders_and_filters {R Upload ObjectIterator : Type}
    (storj : StorjDS R Upload ObjectIterator) (q : dsq.Query) (w : World R) :
  0 < len (dsq.Orders q) \/ 0 < len (dsq.Filters q) ->
  Query storj q w
  = ((None, Some (ErrorString "storjds: filters or orders are not supported")),
     mkWorld (remote w) (calls w) (logged w ++ [LogQuery q]) (heap w)).
Proof.
  intros Hq. unfold Query. run_call.
  destruct (dsq.Orders q) as [os |], (dsq.Filters q) as [fs |];
    cbn in *; try done. lia.
Qed.

Lemma Query_rejects_orders_and_filters_witness :
  let q := {| dsq.Prefix := "/a";
              dsq.Filters := Some [dsq.FilterKeyPrefix "/a/1"];
              dsq.Orders := None;
              dsq.Limit := 0; dsq.Offset := 0; dsq.KeysOnly := true;
              dsq.ReturnExpirations := false; dsq.ReturnsSizes := false |} in
  Query Fake.storj q (Fake.start Fake.empty)
  = ((None, Some (ErrorString "storjds: filters or orders are not supported")),
     mkWorld Fake.empty [] [LogQuery q] ∅).
Proof.
  intros q.
  apply (Query_rejects_orders_and_filters Fake.storj q (Fake.start Fake.empty)).
  right. cbn. lia.
Defined.

(** One call of the iterator's [Next] advances the remote cursor once.  A
    result reported with [true] carries the key and size of the object the
    cursor then points at; with keys only, [Next] reports exactly what the
    cursor reports. *)
Lemma Iterator_Next_entry {R Upload ObjectIterator : Type}
    (NewKey : string -> Key) (storj : StorjDS R Upload ObjectIterator)
    (q : dsq.Query) (cursor : ObjectIterator) (w : World R) :
  let step := uplink.ObjectIterator_Next (Project storj) cursor in
  let out := fst (Iterator_Next NewKey storj q cursor w) in
  snd out = snd step
  /\ (snd (fst out) = true ->
      fst step = true
      /\ carries (dsq.Entry_of (fst (fst out)))
                 (uplink.ObjectIterator_Item (Project storj) (snd step)))
  /\ (dsq.KeysOnly q = true -> snd (fst out) = fst step).
Proof.
  cbv zeta. unfold Iterator_Next.
  destruct (uplink.ObjectIterator_Next _ _) as [more cursor']; cbn [fst snd].
  destruct more; cbn [negb].
  - destruct (dsq.KeysOnly q); cbn [negb].
    + run_call. repeat split; done.
    + run_call. destruct (Get _ _ _) as [[val [e |]] w']; cbn [fst snd];
        repeat split; done.
  - destruct (uplink.ObjectIterator_Err _ _); run_call; repeat split; done.
Qed.

(** [produced], one result at a time. *)
Lemma produced_S {R Upload ObjectIterator : Type}
    (NewKey : string -> Key) (n : nat)
    (r : Results R Upload ObjectIterator) (w : World R) :
  fst (produced NewKey (S n) r w)
  = let out := Iterator_Next NewKey (Results_storj r) (Results_Query r)
                 (Results_list r) w in
    if snd (fst (fst out))
    then dsq.Entry_of (fst (fst (fst out)))
         :: fst (produced NewKey n
                   {| Results_Query := Results_Query r;
                      Results_storj := Results_storj r;
                      Results_list := snd (fst out) |} (snd out))
    else [].
Proof.
  cbn [produced]. unfold NextSync, bind, ret. cbv zeta.
  destruct (Iterator_Next _ _ _ _ _) as [[[res ok] cursor'] w'].
  cbn [fst snd]. destruct ok; [| done].
  by destruct (produced _ _ _ _).
Qed.

(** The entries produced by the results match, position by position, the
    objects their cursor serves. *)
Lemma produced_carries {R Upload ObjectIterator : Type}
    (NewKey : string -> Key) (n : nat) :
  forall (r : Results R Upload ObjectIterator) (w : World R),
    let es := fst (produced NewKey n r w) in
    let objs := served (Project (Results_storj r)) n (Results_list r) in
    Forall2 carries es (take (length es) objs)
    /\ (dsq.KeysOnly (Results_Query r) = true -> length es = length objs).
Proof.
  induction n as [| n IH]; intros r w; cbv zeta.
  - cbn. split; [constructor | done].
  - rewrite produced_S. cbv zeta. cbn [served].
    pose proof (Iterator_Next_entry NewKey (Results_storj r) (Results_Query r)
                  (Results_list r) w) as (Hcur & Hok & Hkeys).
    cbv zeta in Hcur, Hok, Hkeys.
    destruct (Iterator_Next _ _ _ _ _) as [[[res ok] cursor'] w'].
    destruct (uplink.ObjectIterator_Next _ _) as [more cursor''].
    cbn [fst snd] in *. subst cursor''.
    destruct ok.
    + destruct Hok as [-> Hcarries]; [done |].
      specialize (IH {| Results_Query := Results_Query r;
                        Results_storj := Results_storj r;
                        Results_list := cursor' |} w').
      cbv zeta in IH. cbn [Results_Query Results_storj Results_list] in IH.
      destruct IH as [IH1 IH2]. split.
      * cbn. constructor; done.
      * intros Hk. cbn. f_equal. by apply IH2.
    + cbn. split; [constructor |].
      intros Hk. by rewrite <- (Hkeys Hk).
Qed.

(** C5.  A query without orders and filters sends exactly one request,
    the listing, whose prefix is the requested prefix with one leading
    separator stripped; and each entry the result sequence produces
    carries the key of an object served by that listing's cursor with a
    separator prepended, and the size from that object's metadata. *)
Theorem Query_strips_prefix_and_rebuilds_keys {R Upload ObjectIterator : Type}
    (NewKey : string -> Key) (storj : StorjDS R Upload ObjectIterator)
    (q : dsq.Query) (w : World R) :
  dsq.Orders q = None ->
  dsq.Filters q = None ->
  let options := list_options (TrimPrefix (dsq.Prefix q) "/") in
  let listing :=
    uplink.ListObjects (Project storj) (Bucket (conf storj)) options (remote w) in
  let out := Query storj q w in
  calls (snd out)
  = calls w ++ [uplink.CallListObjects (Bucket (conf storj)) options]
  /\ (forall p, dsq.Prefix q = "/" +:+ p -> uplink.Prefix options = p)
  /\ (forall r, fst (fst out) = Some r ->
        Results_list r = fst listing
        /\ forall n w1,
             let es := fst (produced NewKey n r w1) in
             let objs := served (Project storj) n (fst listing) in
             Forall2 carries es (take (length es) objs)
             /\ (dsq.KeysOnly q = true -> length es = length objs)).
Proof.
  intros Ho Hf. cbv zeta. unfold Query. rewrite Ho, Hf. run_call.
  cbn [not_nil orb set_Prefix dsq.Prefix].
  destruct (uplink.ListObjects _ _ _ _) as [cursor r'] eqn:Hlist.
  cbn [fst snd].
  split; [| split].
  - by destruct (uplink.ObjectIterator_Err _ _).
  - intros p ->. apply TrimPrefix_slash.
  - intros r Hr.
    destruct (uplink.ObjectIterator_Err _ _); cbn [fst snd] in Hr; [done |].
    injection Hr as <-. cbn [Results_list]. split; [done |].
    intros n w1.
    apply (produced_carries NewKey n
             {| Results_Query := set_Prefix q (TrimPrefix (dsq.Prefix q) "/");
                Results_storj := storj;
                Results_list := cursor |} w1).
Qed.

Lemma Query_strips_prefix_and_rebuilds_keys_witness :
  let q := Fake.query_a false in
  let w := Fake.start Fake.stocked in
  let options := list_options (TrimPrefix (dsq.Prefix q) "/") in
  let listing :=
    uplink.ListObjects (Project Fake.storj) (Bucket (conf Fake.storj))
      options (remote w) in
  let out := Query Fake.storj q w in
  calls (snd out)
  = calls w ++ [uplink.CallListObjects (Bucket (conf Fake.storj)) options]
  /\ (forall p, dsq.Prefix q = "/" +:+ p -> uplink.Prefix options = p)
  /\ (forall r, fst (fst out) = Some r ->
        Results_list r = fst listing
        /\ forall n w1,
             let es := fst (produced Fake.NewKey n r w1) in
             let objs := served (Project Fake.storj) n (fst listing) in
             Forall2 carries es (take (length es) objs)
             /\ (dsq.KeysOnly q = true -> length es = length objs)).
Proof.
  apply (Query_strips_prefix_and_rebuilds_keys Fake.NewKey Fake.storj
           (Fake.query_a false) (Fake.start Fake.stocked));
    reflexivity.
Defined.

(** The query of the three stored objects for the prefix [/a], with
    values: the listing is asked for [a], and the two objects under it
    come back with their keys, values and sizes. *)
Example Query_prefix_a :
  let out := Query Fake.storj (Fake.query_a false) (Fake.start Fake.stocked) in
  calls (snd out) = [uplink.CallListObjects "ipfs" (list_options "a")]
  /\ exists r, fst out = (Some r, None)
     /\ fst (produced Fake.NewKey 5 r (snd out))
        = [ {| dsq.Key := "/a/1"; dsq.Value := Some (Fake.bytes "x"); dsq.Size := 1 |};
            {| dsq.Key := "/a/2"; dsq.Value := Some (Fake.bytes "yy"); dsq.Size := 2 |} ].
Proof.
  cbv zeta. split; [vm_compute; reflexivity |].
  eexists. split; [reflexivity |]. vm_compute. reflexivity.
Qed.

(** ** The batch accumulator *)

(** [Batch] returns nil and a batch whose map is new and empty; the maps
    of the batches made before are untouched, and no request is sent. *)
Lemma Batch_fresh_map {R Upload ObjectIterator : Type}
    (storj : StorjDS R Upload ObjectIterator) (w : World R) :
  let out := Batch storj w in
  snd (fst out) = None
  /\ heap w !! ops (fst (fst out)) = None
  /\ map_at (snd out) (ops (fst (fst out))) = ∅
  /\ (forall l, l <> ops (fst (fst out)) -> map_at (snd out) l = map_at w l)
  /\ calls (snd out) = calls w
  /\ remote (snd out) = remote w.
Proof.
  cbv zeta. unfold Batch, make_map. run_call. cbn [ops].
  repeat split.
  - apply not_elem_of_dom, is_fresh.
  - unfold map_at. cbn [heap]. by rewrite lookup_insert_eq.
  - intros l Hl. unfold map_at. cbn [heap]. by rewrite lookup_insert_ne.
Qed.

Lemma map_at_assign {R : Type} (l : loc) (key : Key) (op : batchOp)
    (w : World R) :
  map_at (snd (map_assign l key op w)) l = <[key := op]> (map_at w l).
Proof. unfold map_at, map_assign. cbn. by rewrite lookup_insert_eq. Qed.

(** One accumulation call returns nil, prints its log line and stores its
    operation in the map of the batch; nothing else changes. *)
Lemma accumulate_one_run {R Upload ObjectIterator : Type}
    (b : storjBatch R Upload ObjectIterator) (c : BatchCall) (w : World R) :
  accumulate_one b c w
  = (None,
     mkWorld (remote w) (calls w) (logged w ++ [call_log c])
       (<[ops b := <[call_key c := call_op c]> (map_at w (ops b))]> (heap w))).
Proof. by destruct c. Qed.

(** A run of accumulation calls: every call returns nil, and the map of
    the batch receives the operations in call order. *)
Lemma accumulate_run {R Upload ObjectIterator : Type}
    (b : storjBatch R Upload ObjectIterator) (cs : list BatchCall) :
  forall w : World R,
    accumulate b cs w
    = (replicate (length cs) None,
       mkWorld (remote w) (calls w) (logged w ++ (call_log <$> cs))
         (match cs with
          | [] => heap w
          | _ => <[ops b := pending cs (map_at w (ops b))]> (heap w)
          end)).
Proof.
  induction cs as [| c cs IH]; intros w.
  - cbn. unfold ret. rewrite app_nil_r. by destruct w.
  - cbn [accumulate]. unfold bind at 1. rewrite accumulate_one_run.
    unfold bind, ret. rewrite IH. cbn [remote calls logged heap].
    f_equal. f_equal.
    + by rewrite <- (assoc_L (++)).
    + unfold map_at at 1 2. cbn [heap]. rewrite lookup_insert_eq. cbn [default].
      destruct cs as [| c' cs]; [done |].
      by rewrite insert_insert_eq.
Qed.

Lemma map_at_accumulate {R Upload ObjectIterator : Type}
    (b : storjBatch R Upload ObjectIterator) (cs : list BatchCall)
    (w : World R) :
  cs <> [] ->
  map_at (snd (accumulate b cs w)) (ops b) = pending cs (map_at w (ops b)).
Proof.
  intros Hcs. rewrite accumulate_run. unfold map_at at 1. cbn [snd heap].
  destruct cs; [done |]. by rewrite lookup_insert_eq.
Qed.

(** The operation pending for a key is the one of the last call on it. *)
Lemma pending_last (pre post : list BatchCall) (c : BatchCall)
    (m : gmap Key batchOp) :
  Forall (fun c' => call_key c' <> call_key c) post ->
  pending (pre ++ c :: post) m !! call_key c = Some (call_op c).
Proof.
  intros Hpost. unfold pending. rewrite foldl_app. cbn [foldl].
  generalize (foldl (fun m c0 => <[call_key c0 := call_op c0]> m) m pre).
  intros m'.
  assert (<[call_key c := call_op c]> m' !! call_key c = Some (call_op c)) as Hm
    by apply lookup_insert_eq.
  revert Hm. generalize (<[call_key c := call_op c]> m'). clear m'.
  induction Hpost as [| c' post Hne _ IH]; intros m' Hm; [done |].
  cbn [foldl]. apply IH. by rewrite lookup_insert_ne.
Qed.

Lemma filter_none {A : Type} (P : A -> Prop) `{!forall x, Decision (P x)}
    (l : list A) :
  Forall (fun x => ~ P x) l -> filter P l = [].
Proof.
  induction 1 as [| x l Hx _ IH]; [done |].
  by rewrite filter_cons_False.
Qed.

(** A key with a pending operation is visited exactly once by [range]. *)
Lemma range_visits_once (m : gmap Key batchOp) (key : Key) (op : batchOp)
    (order : list (Key * batchOp)) :
  m !! key = Some op ->
  order ≡ₚ map_to_list m ->
  filter (fun e => e.1 = key) order = [(key, op)].
Proof.
  intros Hm Horder.
  apply Permutation_singleton_r.
  rewrite Horder.
  rewrite <- (insert_delete_id m key op Hm).
  rewrite map_to_list_insert by apply lookup_delete_eq.
  rewrite filter_cons_True by done.
  apply Permutation_skip.
  rewrite filter_none; [done |].
  apply Forall_forall. intros [k v] Hin%elem_of_map_to_list Hk.
  cbn in Hk. subst k. by rewrite lookup_delete_eq in Hin.
Qed.

(** A batch holding a single key is visited in one way. *)
Lemma range_single (m : gmap Key batchOp) (key : Key) (op : batchOp)
    (order : list (Key * batchOp)) :
  m !! key = Some op ->
  (forall k, k <> key -> m !! k = None) ->
  order ≡ₚ map_to_list m ->
  order = [(key, op)].
Proof.
  intros Hm Hothers Horder.
  assert (m = {[ key := op ]}) as ->.
  { apply map_eq. intros k. destruct (decide (k = key)) as [-> | Hne].
    - by rewrite lookup_singleton_eq.
    - rewrite lookup_singleton_ne by done. by apply Hothers. }
  rewrite map_to_list_singleton in Horder.
  by apply Permutation_singleton_r.
Qed.

Lemma Commit_single {R Upload ObjectIterator : Type}
    (b : storjBatch R Upload ObjectIterator) (key : Key) (op : batchOp)
    (w : World R) :
  Commit b [(key, op)] w
  = (logger_Print LogBatchCommit ;; Commit_step b key op) w.
Proof.
  unfold Commit, bind. cbn [Commit_range]. unfold bind, ret.
  destruct (logger_Print _ _) as [u w0].
  by destruct (Commit_step _ _ _ _) as [[e |] w'].
Qed.

(** C10.  [Put] and [Delete] of a batch return nil for every key and
    value; they print their log line and store the operation in the map of
    the batch, and send no request: the requests and the remote side are
    as before, also after any run of such calls. *)
Theorem Batch_accumulation_never_fails {R Upload ObjectIterator : Type}
    (b : storjBatch R Upload ObjectIterator) (key : Key)
    (val : slice Byte.byte) (cs : list BatchCall) (w : World R) :
  Batch_Put b key val w
  = (None,
     mkWorld (remote w) (calls w)
       (logged w ++ [LogBatchPut (Key_String key) (len val)])
       (<[ops b := <[key := {| value := val; delete := false |}]>
                     (map_at w (ops b))]> (heap w)))
  /\ Batch_Delete b key w
     = (None,
        mkWorld (remote w) (calls w)
          (logged w ++ [LogBatchDelete (Key_String key)])
          (<[ops b := <[key := {| value := None; delete := true |}]>
                        (map_at w (ops b))]> (heap w)))
  /\ (let out := accumulate b cs w in
      fst out = replicate (length cs) None
      /\ remote (snd out) = remote w
      /\ calls (snd out) = calls w).
Proof.
  split; [exact (accumulate_one_run b (CallPut key val) w) |].
  split; [exact (accumulate_one_run b (CallDelete key) w) |].
  cbv zeta. by rewrite accumulate_run.
Qed.

(** C2.  Whatever calls were made on a batch, the operation pending for a
    key is the one of the last call on that key: [range] visits the key
    exactly once, with that operation, so a [Commit] of a batch holding
    only that key is that one operation.  After [Put(K1,V1)],
    [Delete(K1)], [Put(K1,V2)] this is [Put(K1,V2)]. *)
Theorem batch_last_write_wins {R Upload ObjectIterator : Type}
    (b : storjBatch R Upload ObjectIterator) (pre post : list BatchCall)
    (c : BatchCall) (w : World R) :
  Forall (fun c' => call_key c' <> call_key c) post ->
  let w' := snd (accumulate b (pre ++ c :: post) w) in
  map_at w' (ops b) !! call_key c = Some (call_op c)
  /\ (forall order, range_order b w' order ->
        filter (fun e => e.1 = call_key c) order = [(call_key c, call_op c)])
  /\ (forall order, range_order b w' order ->
        (forall k, k <> call_key c -> map_at w' (ops b) !! k = None) ->
        Commit b order w'
        = (logger_Print LogBatchCommit ;;
           Commit_step b (call_key c) (call_op c)) w').
Proof.
  intros Hpost. cbv zeta.
  assert (map_at (snd (accumulate b (pre ++ c :: post) w)) (ops b) !! call_key c
          = Some (call_op c)) as Hlast.
  { rewrite map_at_accumulate by (by destruct pre). by apply pending_last. }
  split; [exact Hlast |]. split.
  - intros order Horder. by eapply range_visits_once.
  - intros order Horder Hothers.
    rewrite (range_single _ _ _ order Hlast Hothers Horder).
    apply Commit_single.
Qed.

(** C3.  When the operation of a key fails during [Commit], after the
    operations visited before it succeeded, [Commit] returns that error
    and ends in the world the failing operation left: what ran before it
    stays applied, nothing is undone, and the entries after it are not
    visited. *)
Theorem Commit_stops_at_first_failure {R Upload ObjectIterator : Type}
    (b : storjBatch R Upload ObjectIterator)
    (pre post : list (Key * batchOp)) (key : Key) (op : batchOp)
    (w w1 w2 : World R) (err : error) :
  Commit_range b pre (snd (logger_Print LogBatchCommit w)) = (None, w1) ->
  Commit_step b key op w1 = (Some err, w2) ->
  Commit b (pre ++ (key, op) :: post) w = (Some err, w2).
Proof.
  unfold Commit, bind at 1.
  destruct (logger_Print LogBatchCommit w) as [u w0]. cbn [snd].
  revert w0. induction pre as [| [k o] pre IH]; intros w0 Hpre Hstep.
  - cbn in Hpre. unfold ret in Hpre. injection Hpre as ->.
    cbn. unfold bind. by rewrite Hstep.
  - cbn [Commit_range app] in *. unfold bind in *.
    destruct (Commit_step b k o w0) as [[e |] w0']; [done |].
    by apply IH.
Qed.

(** Conversely, an error returned by [Commit] is the error of the first
    operation that failed. *)
Lemma Commit_error_inv {R Upload ObjectIterator : Type}
    (b : storjBatch R Upload ObjectIterator) (order : list (Key * batchOp))
    (w w2 : World R) (err : error) :
  Commit b order w = (Some err, w2) ->
  exists pre key op post w1,
    order = pre ++ (key, op) :: post
    /\ Commit_range b pre (snd (logger_Print LogBatchCommit w)) = (None, w1)
    /\ Commit_step b key op w1 = (Some err, w2).
Proof.
  unfold Commit, bind at 1.
  destruct (logger_Print LogBatchCommit w) as [u w0]. cbn [snd].
  revert w0. induction order as [| [k o] order IH]; intros w0 Hrun; [done |].
  cbn [Commit_range] in Hrun. unfold bind in Hrun.
  destruct (Commit_step b k o w0) as [[e |] w0'] eqn:Hstep.
  - unfold ret in Hrun. injection Hrun as -> ->.
    by exists [], k, o, order, w0.
  - destruct (IH w0' Hrun) as (pre & key & op & post & w1 & -> & Hpre & Hfail).
    exists ((k, o) :: pre), key, op, post, w1. split; [done |].
    split; [| done]. cbn [Commit_range]. unfold bind. by rewrite Hstep.
Qed.

(** When no operation fails, [Commit] returns nil. *)
Lemma Commit_success {R Upload ObjectIterator : Type}
    (b : storjBatch R Upload ObjectIterator) (order : list (Key * batchOp))
    (w w1 : World R) :
  Commit_range b order (snd (logger_Print LogBatchCommit w)) = (None, w1) ->
  Commit b order w = (None, w1).
Proof.
  unfold Commit, bind.
  by destruct (logger_Print LogBatchCommit w) as [u w0].
Qed.

Lemma batch_last_write_wins_witness :
  let b := Fake.fresh_batch Fake.empty in
  let K1 := RawKey "/a" in
  let V1 := Some (Fake.bytes "one") in
  let V2 := Some (Fake.bytes "two") in
  let w' := snd (accumulate b [CallPut K1 V1; CallDelete K1; CallPut K1 V2]
                   (Fake.fresh_world Fake.empty)) in
  let order := [(K1, {| value := V2; delete := false |})] in
  map_at w' (ops b) !! K1 = Some {| value := V2; delete := false |}
  /\ range_order b w' order
  /\ Commit b order w' = (logger_Print LogBatchCommit ;; Put Fake.storj K1 V2) w'.
Proof.
  intros b K1 V1 V2 w' order.
  pose proof (batch_last_write_wins b [CallPut K1 V1; CallDelete K1] []
                (CallPut K1 V2) (Fake.fresh_world Fake.empty) (Forall_nil_2 _))
    as (Hlast & _ & Hcommit).
  assert (range_order b w' order) as Horder
    by (unfold range_order; vm_compute; reflexivity).
  split; [exact Hlast |]. split; [exact Horder |].
  apply (Hcommit order Horder).
  intros k Hk. cbn [call_key] in Hk.
  rewrite map_at_accumulate by done. cbn.
  by rewrite !lookup_insert_ne.
Defined.

Lemma Commit_stops_at_first_failure_witness :
  let b := Fake.fresh_batch Fake.refusing_bad in
  let put s := {| value := Some (Fake.bytes s); delete := false |} in
  let order := [(RawKey "/a", put "x"); (RawKey "/bad", put "y");
                (RawKey "/c", put "z")] in
  let w := snd (accumulate b
                  [CallPut (RawKey "/a") (Some (Fake.bytes "x"));
                   CallPut (RawKey "/bad") (Some (Fake.bytes "y"));
                   CallPut (RawKey "/c") (Some (Fake.bytes "z"))]
                  (Fake.fresh_world Fake.refusing_bad)) in
  let out := Commit b order w in
  range_order b w order
  /\ fst out = Some Fake.unavailable
  /\ Fake.objects (remote (snd out)) !! "a" = Some (Fake.bytes "x")
  /\ Fake.objects (remote (snd out)) !! "c" = None.
Proof.
  intros b put order w out.
  split.
  { unfold range_order. vm_compute. symmetry.
    apply (Permutation_cons_append [_; _]). }
  set (w1 := snd (Commit_range b [(RawKey "/a", put "x")]
                    (snd (logger_Print LogBatchCommit w)))).
  set (w2 := snd (Commit_step b (RawKey "/bad") (put "y") w1)).
  assert (out = (Some Fake.unavailable, w2)) as ->.
  { apply (Commit_stops_at_first_failure b [(RawKey "/a", put "x")]
             [(RawKey "/c", put "z")] (RawKey "/bad") (put "y") w w1 w2);
      vm_compute; reflexivity. }
  repeat split; vm_compute; reflexivity.
Defined.

(** * Further properties *)

(** ** Keys and errors *)

(** Two different keys in canonical form (their strings begin with the
    separator) never share a storage key. *)
Theorem storjKey_injective (K1 K2 : Key) :
  HasPrefix (Key_String K1) "/" = true ->
  HasPrefix (Key_String K2) "/" = true ->
  K1 <> K2 ->
  storjKey K1 <> storjKey K2.
Proof.
  intros [r1 H1]%HasPrefix_slash [r2 H2]%HasPrefix_slash Hne Heq.
  apply Hne. destruct K1 as [s1], K2 as [s2]. cbn in *. subst s1 s2.
  unfold storjKey in Heq. cbn in Heq. rewrite !TrimPrefix_slash in Heq.
  by subst r2.
Qed.

Lemma storjKey_injective_witness :
  storjKey (RawKey "/a/1") <> storjKey (RawKey "/a/2").
Proof. apply storjKey_injective; [reflexivity | reflexivity | discriminate]. Defined.


(** A key whose string does not begin with the separator is used as it
    is, so it names the same object as the key with the separator
    prepended. *)
Theorem storjKey_without_separator (s : string) :
  HasPrefix s "/" = false ->
  storjKey (RawKey s) = s
  /\ storjKey (RawKey s) = storjKey (RawKey ("/" +:+ s)).
Proof.
  intros Hs. unfold storjKey. cbn [Key_String].
  rewrite TrimPrefix_slash. by rewrite (TrimPrefix_no_slash s Hs).
Qed.

Lemma storjKey_without_separator_witness :
  storjKey (RawKey "a/b") = "a/b"
  /\ storjKey (RawKey "a/b") = storjKey (RawKey ("/" +:+ "a/b")).
Proof. apply storjKey_without_separator. reflexivity. Defined.

(** [isNotFound] looks through any depth of wrapping: it holds exactly
    when the innermost cause is [uplink.ErrObjectNotFound]; in particular
    it does not hold of [ds.ErrNotFound]. *)
Theorem isNotFound_iff_root (err : error) :
  isNotFound (Some err) = true <-> root err = ErrObjectNotFound.
Proof.
  unfold isNotFound.
  induction err as [| | | msg | msg cause IH]; cbn [root]; done.
Qed.

(** ** Single-object operations, continued *)


(** [Get] returns a nil value with [ds.ErrNotFound] when the download
    cannot be opened because the object is not found, a nil value with
    the unchanged error when it cannot be opened for another reason, and
    the whole payload, as a non-nil slice with a nil error, when the
    stream is read to its end. *)
Theorem Get_translates_not_found {R Upload ObjectIterator : Type}
    (storj : StorjDS R Upload ObjectIterator) (key : Key) (w : World R) :
  let reply :=
    fst (uplink.DownloadObject (Project storj) (Bucket (conf storj))
           (storjKey key) (remote w)) in
  let out := fst (Get storj key w) in
  (forall err, reply = uplink.Err err -> isNotFound (Some err) = true ->
               out = (None, Some ErrNotFound))
  /\ (forall err, reply = uplink.Err err -> isNotFound (Some err) = false ->
                  out = (None, Some err))
  /\ (forall download,
        reply = uplink.Ok download ->
        Forall (fun step => uplink.read_err step = None) download ->
        out = (Some (concat (uplink.read_bytes <$> download)), None)).
Proof.
  cbv zeta. split; [| split].
  - intros err Hr Hnf. rewrite (Get_open_failure storj key w err Hr).
    by rewrite Hnf.
  - intros err Hr Hnf. rewrite (Get_open_failure storj key w err Hr).
    by rewrite Hnf.
  - intros download Hr Hclean. by apply Get_read_success.
Qed.

(** [Has] and [GetSize] read the same stat probe, so on the same state
    they agree: [Has] answers true exactly when [GetSize] returns a nil
    error, and when [Has] answers false without an error [GetSize]
    returns minus one with [ds.ErrNotFound]. *)
Theorem Has_GetSize_agree {R Upload ObjectIterator : Type}
    (storj : StorjDS R Upload ObjectIterator) (key : Key) (w : World R) :
  (fst (Has storj key w) = (true, None)
   <-> snd (fst (GetSize storj key w)) = None)
  /\ (fst (Has storj key w) = (false, None) ->
      fst (GetSize storj key w) = ((-1)%Z, Some ErrNotFound)).
Proof.
  unfold Has, GetSize. run_call.
  destruct (uplink.StatObject _ _ _ _) as [[obj | e] r]; cbn [fst snd].
  - split; [done |]. discriminate.
  - destruct (isNotFound (Some e)); cbn [fst snd]; split; try split; done.
Qed.

(** What each single-object call sends: [Has] and [GetSize] one stat
    request, [Get] one download request, [Delete] one delete request, all
    for the bucket of the configuration and the storage key of the key;
    [Sync] sends nothing, leaves the remote side as it is and returns
    nil; [GetSize] prints no log line. *)
Theorem request_footprint {R Upload ObjectIterator : Type}
    (storj : StorjDS R Upload ObjectIterator) (key : Key) (w : World R) :
  let bucket := Bucket (conf storj) in
  calls (snd (Has storj key w))
  = calls w ++ [uplink.CallStatObject bucket (storjKey key)]
  /\ calls (snd (GetSize storj key w))
     = calls w ++ [uplink.CallStatObject bucket (storjKey key)]
  /\ logged (snd (GetSize storj key w)) = logged w
  /\ calls (snd (Get storj key w))
     = calls w ++ [uplink.CallDownloadObject bucket (storjKey key)]
  /\ calls (snd (Delete storj key w))
     = calls w ++ [uplink.CallDeleteObject bucket (storjKey key)]
  /\ Sync storj key w
     = (None,
        mkWorld (remote w) (calls w) (logged w ++ [LogSync (Key_String key)])
          (heap w)).
Proof.
  cbv zeta. unfold Has, GetSize, Get, Delete, Sync. run_call.
  repeat split.
  - destruct (uplink.StatObject _ _ _ _) as [[obj | e] r]; [done |].
    by destruct (isNotFound (Some e)).
  - destruct (uplink.StatObject _ _ _ _) as [[obj | e] r]; [done |].
    by destruct (isNotFound (Some e)).
  - destruct (uplink.StatObject _ _ _ _) as [[obj | e] r]; [done |].
    by destruct (isNotFound (Some e)).
  - destruct (uplink.DownloadObject _ _ _ _) as [[d | e] r]; [done |].
    by destruct (isNotFound (Some e)).
  - by destruct (uplink.DeleteObject _ _ _ _) as [d r].
Qed.

(** ** Query, continued *)

(** The guard of [Query] compares with nil: a descriptor whose orders or
    filters are a non-nil slice is rejected without any request, also
    when that slice is empty. *)
Theorem Query_rejects_non_nil {R Upload ObjectIterator : Type}
    (storj : StorjDS R Upload ObjectIterator) (q : dsq.Query) (w : World R) :
  dsq.Orders q <> None \/ dsq.Filters q <> None ->
  Query storj q w
  = ((None, Some (ErrorString "storjds: filters or orders are not supported")),
     mkWorld (remote w) (calls w) (logged w ++ [LogQuery q]) (heap w)).
Proof.
  intros Hq. unfold Query. run_call.
  destruct (dsq.Orders q) as [os |], (dsq.Filters q) as [fs |];
    cbn; try done. by destruct Hq.
Qed.

Lemma Query_rejects_non_nil_witness :
  let q := {| dsq.Prefix := "/a";
              dsq.Filters := None;
              dsq.Orders := Some [];
              dsq.Limit := 0; dsq.Offset := 0; dsq.KeysOnly := true;
              dsq.ReturnExpirations := false; dsq.ReturnsSizes := false |} in
  Query Fake.storj q (Fake.start Fake.stocked)
  = ((None, Some (ErrorString "storjds: filters or orders are not supported")),
     mkWorld Fake.stocked [] [LogQuery q] ∅).
Proof.
  intros q.
  apply (Query_rejects_non_nil Fake.storj q (Fake.start Fake.stocked)).
  left. discriminate.
Defined.

(** [Query] returns either results or an error, never both and never
    neither; for a descriptor without orders and filters the error, if
    any, is the one the cursor reports right after the listing request. *)
Theorem Query_results_xor_error {R Upload ObjectIterator : Type}
    (storj : StorjDS R Upload ObjectIterator) (q : dsq.Query) (w : World R) :
  let out := fst (Query storj q w) in
  (fst out = None <-> snd out <> None)
  /\ (dsq.Orders q = None -> dsq.Filters q = None ->
      snd out
      = uplink.ObjectIterator_Err (Project storj)
          (fst (uplink.ListObjects (Project storj) (Bucket (conf storj))
                  (list_options (TrimPrefix (dsq.Prefix q) "/")) (remote w)))).
Proof.
  cbv zeta. unfold Query. run_call.
  destruct (not_nil (dsq.Orders q) || not_nil (dsq.Filters q)) eqn:Hguard.
  - cbn. split; [done |]. intros Ho Hf. by rewrite Ho, Hf in Hguard.
  - cbn [set_Prefix dsq.Prefix].
    destruct (uplink.ListObjects _ _ _ _) as [cursor r']. cbn [fst snd].
    destruct (uplink.ObjectIterator_Err _ _); cbn; split; done.
Qed.

(** A result of the iterator never holds both an entry and an error: one
    reported with [true] has a nil error, one reported with [false] has
    the zero entry (the entry of an object whose value could not be read
    is dropped). *)
Theorem Iterator_Next_entry_xor_error {R Upload ObjectIterator : Type}
    (NewKey : string -> Key) (storj : StorjDS R Upload ObjectIterator)
    (q : dsq.Query) (cursor : ObjectIterator) (w : World R) :
  let out := fst (fst (Iterator_Next NewKey storj q cursor w)) in
  (snd out = true -> dsq.Error (fst out) = None)
  /\ (snd out = false -> dsq.Entry_of (fst out) = dsq.Entry_zero).
Proof.
  cbv zeta. unfold Iterator_Next.
  destruct (uplink.ObjectIterator_Next _ _) as [more cursor']; cbn [fst snd].
  destruct more; cbn [negb].
  - destruct (dsq.KeysOnly q); cbn [negb].
    + run_call. by split.
    + run_call. by destruct (Get _ _ _) as [[val [e |]] w'].
  - by destruct (uplink.ObjectIterator_Err _ _).
Qed.




(** A [Get] that returns a nil error returns a non-nil value. *)
Lemma Get_success_value {R Upload ObjectIterator : Type}
    (storj : StorjDS R Upload ObjectIterator) (key : Key) (w : World R) :
  snd (fst (Get storj key w)) = None -> is_Some (fst (fst (Get storj key w))).
Proof.
  unfold Get. run_call.
  destruct (uplink.DownloadObject _ _ _ _) as [[d | e] r]; cbn [fst snd].
  - unfold ReadAll. destruct (ReadAll_loop d []). cbn. eauto.
  - by destruct (isNotFound (Some e)).
Qed.

Lemma Get_calls {R Upload ObjectIterator : Type}
    (storj : StorjDS R Upload ObjectIterator) (key : Key) (w : World R) :
  calls (snd (Get storj key w))
  = calls w ++ [uplink.CallDownloadObject (Bucket (conf storj)) (storjKey key)].
Proof.
  unfold Get. run_call.
  destruct (uplink.DownloadObject _ _ _ _) as [[d | e] r]; [done |].
  by destruct (isNotFound (Some e)).
Qed.

(** One call of [Next] with values: when the cursor moved on, exactly one
    download is requested, for the key rebuilt from the listed object. *)
Lemma Iterator_Next_hydrated {R Upload ObjectIterator : Type}
    (NewKey : string -> Key) (storj : StorjDS R Upload ObjectIterator)
    (q : dsq.Query) (cursor : ObjectIterator) (w : World R) :
  dsq.KeysOnly q = false ->
  let step := uplink.ObjectIterator_Next (Project storj) cursor in
  let out := Iterator_Next NewKey storj q cursor w in
  snd (fst out) = snd step
  /\ (fst step = false -> snd (fst (fst out)) = false /\ snd out = w)
  /\ (fst step = true ->
      calls (snd out)
      = calls w ++ [hydration_request NewKey (Bucket (conf storj))
                      (uplink.ObjectIterator_Item (Project storj) (snd step))])
  /\ (snd (fst (fst out)) = true ->
      is_Some (dsq.Value (dsq.Entry_of (fst (fst (fst out)))))).
Proof.
  intros Hk. cbv zeta. unfold Iterator_Next. rewrite Hk.
  destruct (uplink.ObjectIterator_Next _ _) as [more cursor']; cbn [fst snd].
  destruct more; cbn [negb].
  - unfold bind.
    pose proof (Get_calls storj
                  (NewKey (entryKey (uplink.Key
                     (uplink.ObjectIterator_Item (Project storj) cursor')))) w)
      as Hcalls.
    pose proof (Get_success_value storj
                  (NewKey (entryKey (uplink.Key
                     (uplink.ObjectIterator_Item (Project storj) cursor')))) w)
      as Hval.
    cbn [dsq.Key] in *.
    destruct (Get _ _ _) as [[val [e |]] w']; cbn [fst snd] in *;
      unfold ret; cbn [fst snd]; repeat split; try done.
    intros _. by apply Hval.
  - destruct (uplink.ObjectIterator_Err _ _); unfold ret; cbn;
      repeat split; done.
Qed.



(** The iterator reads nothing of the descriptor but [KeysOnly]. *)
Lemma produced_same_KeysOnly {R Upload ObjectIterator : Type}
    (NewKey : string -> Key) (n : nat) :
  forall (r r' : Results R Upload ObjectIterator) (w : World R),
    Results_storj r' = Results_storj r ->
    Results_list r' = Results_list r ->
    dsq.KeysOnly (Results_Query r') = dsq.KeysOnly (Results_Query r) ->
    produced NewKey n r' w = produced NewKey n r w.
Proof.
  induction n as [| n IH]; intros r r' w Hs Hl Hk; [done |].
  cbn [produced]. unfold NextSync, bind, ret. rewrite Hs, Hl.
  assert (Iterator_Next NewKey (Results_storj r) (Results_Query r')
            (Results_list r) w
          = Iterator_Next NewKey (Results_storj r) (Results_Query r)
              (Results_list r) w) as ->.
  { unfold Iterator_Next. by rewrite Hk. }
  destruct (Iterator_Next _ _ _ _ _) as [[[res ok] cursor'] w'].
  destruct ok; [| done].
  by rewrite (IH {| Results_Query := Results_Query r;
                    Results_storj := Results_storj r;
                    Results_list := cursor' |}
                 {| Results_Query := Results_Query r';
                    Results_storj := Results_storj r;
                    Results_list := cursor' |} w').
Qed.

(** [Limit], [Offset], [ReturnExpirations] and [ReturnsSizes] are not
    honoured: two descriptors that agree on the prefix, the orders, the
    filters and [KeysOnly] send the same request, fail alike, and produce
    the same entries. *)
Theorem Query_ignores_limit_and_offset {R Upload ObjectIterator : Type}
    (NewKey : string -> Key) (storj : StorjDS R Upload ObjectIterator)
    (q q' : dsq.Query) (w : World R) :
  dsq.Prefix q' = dsq.Prefix q ->
  dsq.Orders q' = dsq.Orders q ->
  dsq.Filters q' = dsq.Filters q ->
  dsq.KeysOnly q' = dsq.KeysOnly q ->
  let out := Query storj q w in
  let out' := Query storj q' w in
  snd (fst out') = snd (fst out)
  /\ calls (snd out') = calls (snd out)
  /\ remote (snd out') = remote (snd out)
  /\ match fst (fst out), fst (fst out') with
     | Some r, Some r' =>
         forall n w1, produced NewKey n r' w1 = produced NewKey n r w1
     | None, None => True
     | _, _ => False
     end.
Proof.
  intros Hp Ho Hf Hk. cbv zeta. unfold Query. rewrite Hp, Ho, Hf. run_call.
  destruct (not_nil (dsq.Orders q) || not_nil (dsq.Filters q)); [done |].
  cbn [set_Prefix dsq.Prefix].
  destruct (uplink.ListObjects _ _ _ _) as [cursor r1]. cbn [fst snd].
  destruct (uplink.ObjectIterator_Err _ _); cbn [fst snd remote calls]; [done |].
  repeat split. intros n w1.
  by apply produced_same_KeysOnly.
Qed.

Lemma Query_ignores_limit_and_offset_witness :
  let q' := {| dsq.Prefix := "/a"; dsq.Filters := None; dsq.Orders := None;
               dsq.Limit := 1; dsq.Offset := 1; dsq.KeysOnly := true;
               dsq.ReturnExpirations := true; dsq.ReturnsSizes := true |} in
  let out := Query Fake.storj (Fake.query_a true) (Fake.start Fake.stocked) in
  let out' := Query Fake.storj q' (Fake.start Fake.stocked) in
  (snd (fst out') = snd (fst out)
   /\ calls (snd out') = calls (snd out)
   /\ remote (snd out') = remote (snd out)
   /\ match fst (fst out), fst (fst out') with
      | Some r, Some r' =>
          forall n w1,
            produced Fake.NewKey n r' w1 = produced Fake.NewKey n r w1
      | None, None => True
      | _, _ => False
      end)
  /\ exists r',
       fst (fst out') = Some r'
       /\ length (fst (produced Fake.NewKey 5 r' (snd out'))) = 2.
Proof.
  cbv zeta. split.
  - apply (Query_ignores_limit_and_offset Fake.NewKey Fake.storj
             (Fake.query_a true)); reflexivity.
  - eexists. split; [reflexivity |]. vm_compute. reflexivity.
Defined.

(** ** The batch accumulator, continued *)

Lemma Put_heap {R Upload ObjectIterator : Type}
    (storj : StorjDS R Upload ObjectIterator) (key : Key)
    (val : slice Byte.byte) (w : World R) :
  heap (snd (Put storj key val w)) = heap w.
Proof.
  unfold Put. run_call.
  destruct (uplink.UploadObject _ _ _ _) as [[upload | e] r1]; [| done].
  destruct (uplink.Upload_Write _ _ _ _) as [[written [e |]] r2]; [done |].
  by destruct (uplink.Upload_Commit _ _ _).
Qed.

Lemma Delete_heap {R Upload ObjectIterator : Type}
    (storj : StorjDS R Upload ObjectIterator) (key : Key) (w : World R) :
  heap (snd (Delete storj key w)) = heap w.
Proof.
  unfold Delete. run_call. by destruct (uplink.DeleteObject _ _ _ _).
Qed.

Lemma Commit_range_heap {R Upload ObjectIterator : Type}
    (b : storjBatch R Upload ObjectIterator) (order : list (Key * batchOp)) :
  forall w : World R, heap (snd (Commit_range b order w)) = heap w.
Proof.
  induction order as [| [k o] order IH]; intros w; [done |].
  cbn [Commit_range]. unfold bind.
  assert (heap (snd (Commit_step b k o w)) = heap w) as Hstep.
  { unfold Commit_step. destruct (delete o); [apply Delete_heap | apply Put_heap]. }
  destruct (Commit_step b k o w) as [[e |] w']; cbn [snd] in *; [done |].
  by rewrite IH.
Qed.

(** [Commit] does not clear the batch: whatever the order and the
    outcome, every map of pending operations is afterwards what it was,
    so a second [Commit] of the same batch visits the same operations
    again. *)
Theorem Commit_keeps_pending {R Upload ObjectIterator : Type}
    (b : storjBatch R Upload ObjectIterator) (order : list (Key * batchOp))
    (w : World R) :
  heap (snd (Commit b order w)) = heap w
  /\ map_at (snd (Commit b order w)) (ops b) = map_at w (ops b)
  /\ (range_order b w order -> range_order b (snd (Commit b order w)) order).
Proof.
  assert (heap (snd (Commit b order w)) = heap w) as Hheap.
  { unfold Commit, bind. cbn. by rewrite Commit_range_heap. }
  assert (map_at (snd (Commit b order w)) (ops b) = map_at w (ops b)) as Hmap.
  { unfold map_at. by rewrite Hheap. }
  split; [done |]. split; [done |].
  unfold range_order. by rewrite Hmap.
Qed.

(** A new batch starts empty and collects its own calls; the calls made
    on it leave a batch that existed before as it was. *)
Theorem Batch_isolation {R Upload ObjectIterator : Type}
    (storj : StorjDS R Upload ObjectIterator)
    (b' : storjBatch R Upload ObjectIterator) (cs : list BatchCall)
    (w : World R) :
  is_Some (heap w !! ops b') ->
  let out := Batch storj w in
  let b := fst (fst out) in
  let w' := snd (accumulate b cs (snd out)) in
  ops b <> ops b'
  /\ map_at w' (ops b) = pending cs ∅
  /\ map_at w' (ops b') = map_at w (ops b').
Proof.
  intros Halloc. cbv zeta.
  pose proof (Batch_fresh_map storj w) as (_ & Hfresh & Hempty & Hothers & _).
  cbv zeta in Hfresh, Hempty, Hothers.
  destruct (Batch storj w) as [[b e] w1]. cbn [fst snd] in *.
  assert (ops b <> ops b') as Hne.
  { intros Heq. rewrite Heq in Hfresh. rewrite Hfresh in Halloc.
    by destruct Halloc. }
  split; [done |].
  rewrite accumulate_run. unfold map_at at 1 3. cbn [snd heap].
  destruct cs as [| c cs].
  - cbn. split; [exact Hempty | by apply Hothers].
  - rewrite lookup_insert_eq, lookup_insert_ne by done. cbn [default].
    rewrite Hempty. split; [done |]. by apply Hothers.
Qed.

Lemma Batch_isolation_witness :
  let b' := Fake.fresh_batch Fake.empty in
  let w := snd (accumulate b' [CallPut (RawKey "/a") (Some (Fake.bytes "x"))]
                  (Fake.fresh_world Fake.empty)) in
  let out := Batch Fake.storj w in
  let b := fst (fst out) in
  let w' := snd (accumulate b [CallDelete (RawKey "/a")] (snd out)) in
  ops b <> ops b'
  /\ map_at w' (ops b) = pending [CallDelete (RawKey "/a")] ∅
  /\ map_at w' (ops b') = map_at w (ops b').
Proof.
  apply (Batch_isolation Fake.storj (Fake.fresh_batch Fake.empty)
           [CallDelete (RawKey "/a")]).
  vm_compute. eauto.
Defined.

(** Committing a batch that holds no operation sends no request and
    returns nil. *)
Theorem Commit_empty_batch {R Upload ObjectIterator : Type}
    (b : storjBatch R Upload ObjectIterator) (order : list (Key * batchOp))
    (w : World R) :
  map_at w (ops b) = ∅ ->
  range_order b w order ->
  Commit b order w
  = (None,
     mkWorld (remote w) (calls w) (logged w ++ [LogBatchCommit]) (heap w)).
Proof.
  unfold range_order. intros -> Horder.
  rewrite map_to_list_empty in Horder.
  apply Permutation_nil_r in Horder. by subst order.
Qed.

Lemma Commit_empty_batch_witness :
  Commit (Fake.fresh_batch Fake.stocked) [] (Fake.fresh_world Fake.stocked)
  = (None,
     mkWorld Fake.stocked [] [LogBatch; LogBatchCommit]
       (heap (Fake.fresh_world Fake.stocked))).
Proof.
  apply (Commit_empty_batch (Fake.fresh_batch Fake.stocked) []
           (Fake.fresh_world Fake.stocked)).
  - vm_compute. reflexivity.
  - unfold range_order. vm_compute. reflexivity.
Defined.

Lemma Delete_not_found_reply {R Upload ObjectIterator : Type}
    (storj : StorjDS R Upload ObjectIterator) (key : Key) (w : World R) :
  isNotFound
    (err_of (fst (uplink.DeleteObject (Project storj) (Bucket (conf storj))
                    (storjKey key) (remote w)))) = true ->
  fst (Delete storj key w) = None.
Proof.
  unfold Delete. run_call.
  destruct (uplink.DeleteObject _ _ _ _) as [d r]; cbn [fst snd].
  by intros ->.
Qed.

(** A pending delete of an object the backend does not find is not a
    failure of [Commit]: the loop goes on with the entries after it. *)
Theorem Commit_passes_missing_delete {R Upload ObjectIterator : Type}
    (b : storjBatch R Upload ObjectIterator) (key : Key)
    (val : slice Byte.byte) (rest : list (Key * batchOp)) (w : World R) :
  isNotFound
    (err_of (fst (uplink.DeleteObject (Project (storj b))
                    (Bucket (conf (storj b))) (storjKey key) (remote w))))
  = true ->
  Commit_range b ((key, {| value := val; delete := true |}) :: rest) w
  = Commit_range b rest (snd (Delete (storj b) key w)).
Proof.
  intros Hnf. cbn [Commit_range]. unfold bind, Commit_step. cbn [delete].
  pose proof (Delete_not_found_reply (storj b) key w Hnf) as Hnil.
  by destruct (Delete (storj b) key w) as [[e |] w']; cbn in Hnil.
Qed.

Lemma Commit_passes_missing_delete_witness :
  let b := Fake.fresh_batch Fake.empty in
  let w := Fake.fresh_world Fake.empty in
  let rest := [(RawKey "/a", {| value := Some (Fake.bytes "x"); delete := false |})] in
  Commit_range b ((RawKey "/gone", {| value := None; delete := true |}) :: rest) w
  = Commit_range b rest (snd (Delete (storj b) (RawKey "/gone") w))
  /\ fst (Commit_range b
            ((RawKey "/gone", {| value := None; delete := true |}) :: rest) w)
     = None.
Proof.
  cbv zeta. split; [| vm_compute; reflexivity].
  apply (Commit_passes_missing_delete (Fake.fresh_batch Fake.empty)
           (RawKey "/gone") None).
  vm_compute. reflexivity.
Defined.

(** An error returned by [Commit] is always the error of one pending
    operation, the first that failed: the entries before it ran without
    error, and the world is the one that operation left. *)
Theorem Commit_error_is_first_failure {R Upload ObjectIterator : Type}
    (b : storjBatch R Upload ObjectIterator) (order : list (Key * batchOp))
    (w w2 : World R) (err : error) :
  Commit b order w = (Some err, w2) ->
  exists pre key op post w1,
    order = pre ++ (key, op) :: post
    /\ Commit_range b pre (snd (logger_Print LogBatchCommit w)) = (None, w1)
    /\ Commit_step b key op w1 = (Some err, w2).
Proof. apply Commit_error_inv. Qed.

Lemma Commit_error_is_first_failure_witness :
  let b := Fake.fresh_batch Fake.refusing_bad in
  let put s := {| value := Some (Fake.bytes s); delete := false |} in
  let order := [(RawKey "/a", put "x"); (RawKey "/bad", put "y")] in
  let w := Fake.fresh_world Fake.refusing_bad in
  exists pre key op post w1,
    order = pre ++ (key, op) :: post
    /\ Commit_range b pre (snd (logger_Print LogBatchCommit w)) = (None, w1)
    /\ Commit_step b key op w1
       = (Some Fake.unavailable, snd (Commit b order w)).
Proof.
  cbv zeta.
  apply (Commit_error_is_first_failure (Fake.fresh_batch Fake.refusing_bad)).
  vm_compute. reflexivity.
Defined.

(** ** Round trips on the in-memory store *)

Lemma Fake_Put_read (key : Key) (val : slice Byte.byte)
    (w : World Fake.Remote) :
  storjKey key ∉ Fake.refused (remote w) ->
  Fake.cut_after (remote w) !! storjKey key = None ->
  (Z.of_nat (len val) < 2 ^ 63)%Z ->
  let out := Put Fake.storj key val w in
  fst out = None
  /\ fst (Get Fake.storj key (snd out)) = (Some (elems val), None)
  /\ fst (Has Fake.storj key (snd out)) = (true, None)
  /\ fst (GetSize Fake.storj key (snd out)) = (Z.of_nat (len val), None).
Proof.
  intros Hok Hcut Hlen. cbv zeta.
  unfold Put, Get, Has, GetSize. run_call.
  cbn [Fake.storj Project conf Bucket Fake.project uplink.UploadObject
       uplink.Upload_Write uplink.Upload_Commit uplink.DownloadObject
       uplink.StatObject].
  unfold Fake.UploadObject. rewrite decide_False by done. cbn [fst snd].
  unfold Fake.Write, Fake.Commit. cbn [fst snd remote calls logged heap].
  unfold Fake.DownloadObject, Fake.StatObject.
  cbn [Fake.refused Fake.objects Fake.cut_after Fake.staged Fake.with_staged].
  rewrite !decide_False by done.
  rewrite !lookup_insert_eq. cbn [default]. rewrite Hcut. cbn [fst snd].
  cbn [id app Fake.object_of uplink.System uplink.ContentLength].
  split; [done |]. split; [| split; [done |]].
  - unfold ReadAll. by cbn.
  - assert (length (elems val) = len val) as -> by by destruct val.
    rewrite int_of_int64_id; [done |].
    unfold is_int64. lia.
Qed.

(** On the in-memory store, for a key it does not refuse: after a [Put],
    which returns nil, [Get] returns the bytes put (an empty, non-nil
    slice for a nil or empty value), [Has] answers true and [GetSize]
    returns their number. *)
Theorem Put_then_read (key : Key) (val : slice Byte.byte)
    (w : World Fake.Remote) :
  storjKey key ∉ Fake.refused (remote w) ->
  Fake.cut_after (remote w) !! storjKey key = None ->
  (Z.of_nat (len val) < 2 ^ 63)%Z ->
  let out := Put Fake.storj key val w in
  fst out = None
  /\ fst (Get Fake.storj key (snd out)) = (Some (elems val), None)
  /\ fst (Has Fake.storj key (snd out)) = (true, None)
  /\ fst (GetSize Fake.storj key (snd out)) = (Z.of_nat (len val), None).
Proof. apply Fake_Put_read. Qed.

Lemma Put_then_read_witness :
  let out := Put Fake.storj (RawKey "/a") None (Fake.start Fake.empty) in
  fst out = None
  /\ fst (Get Fake.storj (RawKey "/a") (snd out)) = (Some [], None)
  /\ fst (Has Fake.storj (RawKey "/a") (snd out)) = (true, None)
  /\ fst (GetSize Fake.storj (RawKey "/a") (snd out)) = (0%Z, None).
Proof.
  apply (Put_then_read (RawKey "/a") None (Fake.start Fake.empty)).
  - vm_compute. set_solver.
  - reflexivity.
  - cbn. lia.
Defined.

(** On the in-memory store, for a key it does not refuse: after a
    [Delete], which returns nil whether or not the object existed, [Has]
    answers false without an error, [Get] and [GetSize] return
    [ds.ErrNotFound], and a second [Delete] returns nil again. *)
Theorem Delete_then_read (key : Key) (w : World Fake.Remote) :
  storjKey key ∉ Fake.refused (remote w) ->
  let out := Delete Fake.storj key w in
  fst out = None
  /\ fst (Has Fake.storj key (snd out)) = (false, None)
  /\ fst (Get Fake.storj key (snd out)) = (None, Some ErrNotFound)
  /\ fst (GetSize Fake.storj key (snd out)) = ((-1)%Z, Some ErrNotFound)
  /\ fst (Delete Fake.storj key (snd out)) = None.
Proof.
  intros Hok. cbv zeta.
  assert (exists r',
            snd (Delete Fake.storj key w)
            = mkWorld r' (calls w ++ [uplink.CallDeleteObject "ipfs" (storjKey key)])
                (logged w ++ [LogDelete (Key_String key)]) (heap w)
            /\ fst (Delete Fake.storj key w) = None
            /\ Fake.refused r' = Fake.refused (remote w)
            /\ Fake.objects r' !! storjKey key = None) as (r' & Hw & Hnil & Hr & Ho).
  { unfold Delete. run_call.
    cbn [Fake.storj Project conf Bucket Fake.project uplink.DeleteObject].
    unfold Fake.DeleteObject. rewrite decide_False by done.
    destruct (Fake.objects (remote w) !! storjKey key) eqn:Hobj; cbn [fst snd].
    - eexists. split; [reflexivity |]. cbn. split; [done |]. split; [done |].
      apply lookup_delete_eq.
    - eexists. split; [reflexivity |]. cbn [err_of]. unfold Fake.not_found.
      by rewrite isNotFound_wrapped. }
  split; [done |]. rewrite Hw.
  unfold Has, Get, GetSize, Delete. run_call.
  cbn [Fake.storj Project conf Bucket Fake.project uplink.DeleteObject
       uplink.DownloadObject uplink.StatObject].
  unfold Fake.DeleteObject, Fake.DownloadObject, Fake.StatObject.
  rewrite Hr, !decide_False by done. rewrite Ho. cbn [fst snd err_of].
  unfold Fake.not_found. rewrite !isNotFound_wrapped. by cbn.
Qed.

Lemma Delete_then_read_witness :
  let out := Delete Fake.storj (RawKey "/a/1") (Fake.start Fake.stocked) in
  fst out = None
  /\ fst (Has Fake.storj (RawKey "/a/1") (snd out)) = (false, None)
  /\ fst (Get Fake.storj (RawKey "/a/1") (snd out)) = (None, Some ErrNotFound)
  /\ fst (GetSize Fake.storj (RawKey "/a/1") (snd out))
     = ((-1)%Z, Some ErrNotFound)
  /\ fst (Delete Fake.storj (RawKey "/a/1") (snd out)) = None.
Proof.
  apply (Delete_then_read (RawKey "/a/1") (Fake.start Fake.stocked)).
  vm_compute. set_solver.
Defined.

(** ** Opening and closing *)

(** Unfolds the calls made to the host. *)
Ltac run_host :=
  unfold ask, note; cbn [fst snd os asked].

(** A failure of [NewStorjDatastore] comes without a datastore, and its
    error is a plain message (the cause is formatted with [%s], not
    wrapped): [errors.Is] finds no sentinel and no cause in it. *)
Theorem NewStorjDatastore_error_is_flat
    {H File Access R Upload ObjectIterator : Type}
    (env : host.Host H File Access R Upload ObjectIterator)
    (conf : Config) (m : Machine H File) (err : error) :
  snd (fst (NewStorjDatastore env conf m)) = Some err ->
  fst (fst (NewStorjDatastore env conf m)) = None
  /\ (exists msg, err = ErrorString msg)
  /\ isNotFound (Some err) = false
  /\ (forall target,
        (forall msg, target <> ErrorString msg) -> errors_Is err target = false).
Proof.
  assert (forall msg,
            isNotFound (Some (ErrorString msg)) = false
            /\ forall target, (forall msg', target <> ErrorString msg') ->
                              errors_Is (ErrorString msg) target = false)
    as Hflat.
  { intros msg. split; [done |]. intros target Ht. cbn.
    rewrite decide_False; [done |]. intros Heq. by apply (Ht msg). }
  unfold NewStorjDatastore, Errorf_s.
  destruct (Nat.ltb 0 (String.length (LogFile conf))).
  - run_host. destruct (host.OpenFile env _ _) as [[file | e] h].
    + cbn [fst snd]. destruct (host.ParseAccess env _) as [access | e].
      * run_host.
        destruct (host.OpenProject env _ _) as [[project | e] h']; cbn.
        -- done.
        -- intros [= <-]. split; [done |]. split; [eauto |]. apply Hflat.
      * cbn. intros [= <-]. split; [done |]. split; [eauto |]. apply Hflat.
    + cbn. intros [= <-]. split; [done |]. split; [eauto |]. apply Hflat.
  - cbn [fst snd]. destruct (host.ParseAccess env _) as [access | e].
    + run_host.
      destruct (host.OpenProject env _ _) as [[project | e] h']; cbn.
      * done.
      * intros [= <-]. split; [done |]. split; [eauto |]. apply Hflat.
    + cbn. intros [= <-]. split; [done |]. split; [eauto |]. apply Hflat.
Qed.

Lemma NewStorjDatastore_error_is_flat_witness :
  let out := NewStorjDatastore FakeHost.env (FakeHost.config "revoked" "")
               FakeHost.boot in
  snd (fst out) = Some (ErrorString "failed to open project: dial failed")
  /\ fst (fst out) = None
  /\ errors_Is (ErrorString "failed to open project: dial failed") EOF = false.
Proof.
  cbv zeta. split; [reflexivity |].
  destruct (NewStorjDatastore_error_is_flat FakeHost.env
              (FakeHost.config "revoked" "") FakeHost.boot
              (ErrorString "failed to open project: dial failed") eq_refl)
    as (Hnone & _ & _ & Hflat).
  split; [exact Hnone |]. apply Hflat. discriminate.
Defined.

(** Membership of a call in an explicit list of calls. *)
Ltac asked_cases :=
  intros; rewrite ?elem_of_app, ?elem_of_cons, ?elem_of_nil in *;
  intuition (try discriminate; eauto).

(** The calls [NewStorjDatastore] makes, in order: the log file is opened
    only when a path is configured, the access grant is parsed only once
    the log file stage passed, and the project is opened only with a
    grant that parsed.  No file is ever closed: when a later step fails
    after the log file was opened, the file stays open although no
    datastore is returned. *)
Theorem NewStorjDatastore_calls
    {H File Access R Upload ObjectIterator : Type}
    (env : host.Host H File Access R Upload ObjectIterator)
    (conf : Config) (m : Machine H File) :
  let out := NewStorjDatastore env conf m in
  exists new,
    asked (snd out) = asked m ++ new
    /\ (forall file, host.CallFileClose file ∉ new)
    /\ (LogFile conf = "" -> forall name, host.CallOpenFile name ∉ new)
    /\ (host.CallParseAccess (AccessGrant conf) ∈ new ->
        LogFile conf = ""
        \/ exists file, fst (host.OpenFile env (LogFile conf) (os m))
                        = uplink.Ok file)
    /\ (host.CallOpenProject ∈ new ->
        exists access,
          host.ParseAccess env (AccessGrant conf) = uplink.Ok access).
Proof.
  cbv zeta. unfold NewStorjDatastore.
  destruct (LogFile conf) as [| a name] eqn:Hname;
    cbn [String.length Nat.ltb Nat.leb].
  - cbn [fst snd]. destruct (host.ParseAccess env _) as [access | e] eqn:Hp.
    + run_host.
      destruct (host.OpenProject env _ _) as [[project | e] h'];
        cbn [fst snd asked];
        (eexists; split; [by rewrite <- !(assoc_L (++)) |]);
        repeat split; eauto; asked_cases.
    + run_host. eexists. split; [by rewrite <- !(assoc_L (++)) |].
      repeat split; eauto; asked_cases.
  - run_host. destruct (host.OpenFile env _ _) as [[file | e] h] eqn:Hopen.
    + cbn [fst snd].
      destruct (host.ParseAccess env _) as [access | e'] eqn:Hp.
      * run_host.
        destruct (host.OpenProject env _ _) as [[project | e'] h'];
          cbn [fst snd asked];
          (eexists; split; [by rewrite <- !(assoc_L (++)) |]);
          repeat split; eauto; asked_cases.
      * run_host. eexists. split; [by rewrite <- !(assoc_L (++)) |].
        repeat split; eauto; asked_cases.
    + cbn [fst snd asked]. eexists. split; [done |].
      repeat split; eauto; asked_cases.
Qed.

(** When [NewStorjDatastore] returns a datastore, it returns no error;
    the datastore holds the configuration it was given and the project
    opened with the parsed access grant; it holds a log file exactly when
    a path is configured, and the logger printed its first line to that
    file (or discarded it). *)
Theorem NewStorjDatastore_success
    {H File Access R Upload ObjectIterator : Type}
    (env : host.Host H File Access R Upload ObjectIterator)
    (cfg : Config) (m : Machine H File)
    (opened : Opened File R Upload ObjectIterator) :
  fst (fst (NewStorjDatastore env cfg m)) = Some opened ->
  let out := NewStorjDatastore env cfg m in
  snd (fst out) = None
  /\ conf (datastore opened) = cfg
  /\ (logFile opened = None <-> LogFile cfg = "")
  /\ host.CallPrint (logFile opened) host.LineNewStorjDatastore ∈ asked (snd out)
  /\ exists access h,
       host.ParseAccess env (AccessGrant cfg) = uplink.Ok access
       /\ host.OpenProject env access h
          = (uplink.Ok (Project (datastore opened)), os (snd out)).
Proof.
  cbv zeta. unfold NewStorjDatastore.
  destruct (LogFile cfg) as [| a name] eqn:Hname;
    cbn [String.length Nat.ltb Nat.leb].
  - cbn [fst snd]. destruct (host.ParseAccess env _) as [access | e] eqn:Hp;
      [| done].
    run_host.
    destruct (host.OpenProject env _ _) as [[project | e] h'] eqn:Ho; [| done].
    cbn [fst snd asked os]. intros [= <-]. cbn [datastore logFile conf Project].
    repeat split; eauto. asked_cases.
  - run_host. destruct (host.OpenFile env _ _) as [[file | e] h] eqn:Hopen;
      [| done].
    cbn [fst snd]. destruct (host.ParseAccess env _) as [access | e] eqn:Hp;
      [| done].
    run_host.
    destruct (host.OpenProject env _ _) as [[project | e] h'] eqn:Ho; [| done].
    cbn [fst snd asked os]. intros [= <-]. cbn [datastore logFile conf Project].
    repeat split; eauto; try done. asked_cases.
Qed.

Lemma NewStorjDatastore_success_witness :
  let cfg := FakeHost.config "grant" "/var/log/storj.log" in
  let out := NewStorjDatastore FakeHost.env cfg FakeHost.boot in
  let opened := {| datastore := {| conf := cfg; Project := Fake.project |};
                   logFile := Some "/var/log/storj.log" |} in
  fst (fst out) = Some opened
  /\ snd (fst out) = None
  /\ conf (datastore opened) = cfg
  /\ (logFile opened = None <-> LogFile cfg = "")
  /\ host.CallPrint (logFile opened) host.LineNewStorjDatastore ∈ asked (snd out)
  /\ exists access h,
       host.ParseAccess FakeHost.env (AccessGrant cfg) = uplink.Ok access
       /\ host.OpenProject FakeHost.env access h
          = (uplink.Ok (Project (datastore opened)), os (snd out)).
Proof.
  cbv zeta. split; [reflexivity |].
  apply (NewStorjDatastore_success FakeHost.env
           (FakeHost.config "grant" "/var/log/storj.log") FakeHost.boot).
  reflexivity.
Defined.

(** [Close] prints its line, closes the project and then, when there is
    a log file, closes the file as well, whether or not closing the
    project failed.  Without a log file it returns the error of the
    project unchanged; with one it returns the two errors combined. *)
Theorem Close_closes_project_and_file
    {H File Access R Upload ObjectIterator : Type}
    (env : host.Host H File Access R Upload ObjectIterator)
    (storj : Opened File R Upload ObjectIterator) (m : Machine H File) :
  let out := Close env storj m in
  let closed := host.Project_Close env (Project (datastore storj)) (os m) in
  match logFile storj with
  | None =>
      out = (fst closed,
             mkMachine (snd closed)
               (asked m ++ [host.CallPrint None host.LineClose;
                            host.CallProjectClose]))
  | Some file =>
      out = (host.Combine env (fst closed)
               (fst (host.File_Close env file (snd closed))),
             mkMachine (snd (host.File_Close env file (snd closed)))
               (asked m ++ [host.CallPrint (Some file) host.LineClose;
                            host.CallProjectClose;
                            host.CallFileClose file]))
  end.
Proof.
  cbv zeta. unfold Close. run_host.
  destruct (host.Project_Close env _ _) as [perr h1]. cbn [fst snd].
  destruct (logFile storj) as [file |].
  - run_host. destruct (host.File_Close env file h1) as [ferr h2].
    cbn [fst snd]. by rewrite <- !(assoc_L (++)).
  - by rewrite <- !(assoc_L (++)).
Qed.

(** On the in-memory host: a datastore opened with a log file and then
    closed leaves no file open, and [Close] returns nil. *)
Example open_then_close :
  let out := NewStorjDatastore FakeHost.env
               (FakeHost.config "grant" "/var/log/storj.log") FakeHost.boot in
  exists opened,
    fst (fst out) = Some opened
    /\ Close FakeHost.env opened (snd out)
       = (None,
          mkMachine []
            [host.CallOpenFile "/var/log/storj.log";
             host.CallPrint (Some "/var/log/storj.log") host.LineNewStorjDatastore;
             host.CallParseAccess "grant";
             host.CallOpenProject;
             host.CallPrint (Some "/var/log/storj.log") host.LineClose;
             host.CallProjectClose;
             host.CallFileClose "/var/log/storj.log"]).
Proof. cbv zeta. eexists. split; [reflexivity |]. vm_compute. reflexivity. Qed.

(** ** Batches on the in-memory store *)

(** On the in-memory store, for a key it does not refuse: a new batch
    that receives [Put(K,V1)], [Delete(K)], [Put(K,V)] commits without
    error in whatever order [range] takes, and [Get(K)] then returns
    [V]. *)
Theorem batch_commit_then_Get (K : Key) (V1 V : slice Byte.byte)
    (w : World Fake.Remote) (order : list (Key * batchOp)) :
  storjKey K ∉ Fake.refused (remote w) ->
  Fake.cut_after (remote w) !! storjKey K = None ->
  (Z.of_nat (len V) < 2 ^ 63)%Z ->
  let b := fst (fst (Batch Fake.storj w)) in
  let w' := snd (accumulate b [CallPut K V1; CallDelete K; CallPut K V]
                   (snd (Batch Fake.storj w))) in
  range_order b w' order ->
  fst (Commit b order w') = None
  /\ fst (Get Fake.storj K (snd (Commit b order w'))) = (Some (elems V), None).
Proof.
  intros Hok Hcut Hlen. cbv zeta.
  pose proof (Batch_fresh_map Fake.storj w) as (_ & _ & Hempty & _ & _ & Hremote).
  cbv zeta in Hempty, Hremote.
  assert (storj (fst (fst (Batch Fake.storj w))) = Fake.storj) as Hstorj by done.
  destruct (Batch Fake.storj w) as [[b e] w1]. cbn [fst snd] in *.
  intros Horder.
  assert (map_at (snd (accumulate b [CallPut K V1; CallDelete K; CallPut K V] w1))
            (ops b) = {[ K := {| value := V; delete := false |} ]}) as Hmap.
  { rewrite map_at_accumulate by done. rewrite Hempty. cbn.
    by rewrite !insert_insert_eq. }
  unfold range_order in Horder. rewrite Hmap, map_to_list_singleton in Horder.
  apply Permutation_singleton_r in Horder. subst order.
  rewrite Commit_single. unfold bind, Commit_step. cbn [delete value fst snd].
  rewrite Hstorj.
  set (w2 := snd (logger_Print LogBatchCommit
                    (snd (accumulate b [CallPut K V1; CallDelete K; CallPut K V] w1)))).
  assert (remote w2 = remote w) as Hr.
  { unfold w2. rewrite accumulate_run. cbn. exact Hremote. }
  destruct (Fake_Put_read K V w2) as (Hnil & Hget & _); [by rewrite Hr .. | done |].
  cbv zeta in Hnil, Hget.
  change (logger_Print LogBatchCommit
            (snd (accumulate b [CallPut K V1; CallDelete K; CallPut K V] w1)))
    with (tt, w2).
  cbn [fst snd]. by split.
Qed.

Lemma batch_commit_then_Get_witness :
  let K := RawKey "/a" in
  let V := Some (Fake.bytes "two") in
  let b := fst (fst (Batch Fake.storj (Fake.start Fake.empty))) in
  let w' := snd (accumulate b
                   [CallPut K (Some (Fake.bytes "one")); CallDelete K; CallPut K V]
                   (snd (Batch Fake.storj (Fake.start Fake.empty)))) in
  let order := [(K, {| value := V; delete := false |})] in
  fst (Commit b order w') = None
  /\ fst (Get Fake.storj K (snd (Commit b order w'))) = (V, None).
Proof.
  apply (batch_commit_then_Get (RawKey "/a") (Some (Fake.bytes "one"))
           (Some (Fake.bytes "two")) (Fake.start Fake.empty)).
  - vm_compute. set_solver.
  - reflexivity.
  - cbn. lia.
  - unfold range_order. vm_compute. reflexivity.
Defined.

Lemma storjKey_entryKey_eq (objectKey : string) :
  storjKey (RawKey (entryKey objectKey)) = objectKey.
Proof. unfold storjKey, entryKey. cbn. apply TrimPrefix_slash. Qed.

(** When [ds.NewKey] leaves the rebuilt key as it is (the key of the
    listed object is a clean path), a call of [Next] with values
    requests the download of exactly the listed object. *)
Theorem Iterator_Next_downloads_listed_object {R Upload ObjectIterator : Type}
    (NewKey : string -> Key) (storj : StorjDS R Upload ObjectIterator)
    (q : dsq.Query) (cursor : ObjectIterator) (w : World R) :
  let step := uplink.ObjectIterator_Next (Project storj) cursor in
  let item := uplink.ObjectIterator_Item (Project storj) (snd step) in
  dsq.KeysOnly q = false ->
  fst step = true ->
  NewKey (entryKey (uplink.Key item)) = RawKey (entryKey (uplink.Key item)) ->
  calls (snd (Iterator_Next NewKey storj q cursor w))
  = calls w ++ [uplink.CallDownloadObject (Bucket (conf storj)) (uplink.Key item)].
Proof.
  cbv zeta. intros Hk Hmore Hclean.
  pose proof (Iterator_Next_hydrated NewKey storj q cursor w Hk)
    as (_ & _ & Hcalls & _).
  cbv zeta in Hcalls. rewrite (Hcalls Hmore).
  unfold hydration_request. by rewrite Hclean, storjKey_entryKey_eq.
Qed.

Lemma Iterator_Next_downloads_listed_object_witness :
  let cursor := fst (Fake.ListObjects "ipfs" (list_options "a") Fake.stocked) in
  let w := Fake.start Fake.stocked in
  let out := Iterator_Next Fake.NewKey Fake.storj (Fake.query_a false) cursor w in
  calls (snd out)
  = calls w
    ++ [uplink.CallDownloadObject (Bucket (conf Fake.storj))
          (uplink.Key (uplink.ObjectIterator_Item (Project Fake.storj)
                         (snd (uplink.ObjectIterator_Next (Project Fake.storj)
                                 cursor))))]
  /\ calls (snd out) = [uplink.CallDownloadObject "ipfs" "a/1"].
Proof.
  cbv zeta. split; [| vm_compute; reflexivity].
  apply (Iterator_Next_downloads_listed_object Fake.NewKey Fake.storj
           (Fake.query_a false));
    vm_compute; reflexivity.
Defined.
